(** * Lane-parallel kernels of hands-on-simd-programming, embedded in Rocq

    The development follows the repository's sources:
    - [include/simd_utils.h]: [benchmark_comparison], [aligned_alloc];
    - [03_Examples/04_image_processing/main.cpp]: brightness adjustment;
    - [03_Examples/01_conditional_code/main.cpp]: clamping, filtering, blending;
    - [02_Computations/02_dot_product]: scalar and vector dot products;
    - [01_Basics/04_loading_data]: masked load and masked store.

    A [float] is its 32-bit pattern (a [Z] in [0, 2^32)); arithmetic decodes
    the pattern to a binary32 [spec_float], computes with the IEEE-754
    operations of the Standard Library's [SpecFloat] (round to nearest even)
    and encodes the result.  A [__m256] is the list of its eight lanes, lane 0
    first; a [__m256i] of bytes is the list of its 32 bytes. *)

From Stdlib Require Import ZArith Bool Lia.
From Stdlib Require Import Floats.SpecFloat.
From stdpp Require Import base list.

#[local] Open Scope Z_scope.

(** ** binary32 ([float]) *)

Module F32.

Definition prec : Z := 24.
Definition emax : Z := 128.

(** The 32-bit pattern of a float and its three fields. *)
Definition sign_bit (w : Z) : bool := Z.testbit w 31.
Definition biased_exp (w : Z) : Z := Z.land (Z.shiftr w 23) 255.
Definition fraction (w : Z) : Z := Z.land w 8388607.

Definition decode (w : Z) : spec_float :=
  let s := sign_bit w in
  let e := biased_exp w in
  let m := fraction w in
  if e =? 0 then
    match m with
    | Zpos p => S754_finite s p (-149)
    | _ => S754_zero s
    end
  else if e =? 255 then
    match m with
    | Z0 => S754_infinity s
    | _ => S754_nan
    end
  else
    match m + 8388608 with
    | Zpos p => S754_finite s p (e - 150)
    | _ => S754_nan
    end.

Definition sign_word (s : bool) : Z := if s then 2147483648 else 0.

(** A NaN produced by an operation is the x86 default NaN; the payload of
    a NaN operand is not carried over, where the processor returns the
    quieted operand.  Statements below compare the two sides of an equation
    through the same operations, or have no NaN operand. *)
Definition default_nan : Z := 4290772992.

Definition encode (x : spec_float) : Z :=
  match x with
  | S754_zero s => sign_word s
  | S754_infinity s => Z.lor (sign_word s) 2139095040
  | S754_nan => default_nan
  | S754_finite s m e =>
      if Zpos m <? 8388608 then Z.lor (sign_word s) (Zpos m)
      else Z.lor (sign_word s)
                 (Z.lor (Z.shiftl (e + 150) 23) (Zpos m - 8388608))
  end.

Definition add (a b : Z) : Z := encode (SFadd prec emax (decode a) (decode b)).
Definition mul (a b : Z) : Z := encode (SFmul prec emax (decode a) (decode b)).

(** Fused multiply-add: [a * b + c] with a single rounding. *)
Definition SFfma (x y z : spec_float) : spec_float :=
  match x, y with
  | S754_finite sx mx ex, S754_finite sy my ey =>
      match z with
      | S754_nan => S754_nan
      | S754_infinity _ => z
      | S754_zero _ => SFmul prec emax x y
      | S754_finite _ _ _ =>
          SFadd prec emax (S754_finite (xorb sx sy) (mx * my) (ex + ey)) z
      end
  | _, _ => SFadd prec emax (SFmul prec emax x y) z
  end.

Definition fma (a b c : Z) : Z := encode (SFfma (decode a) (decode b) (decode c)).

(** The comparisons [<] and [>] of C++, false on a NaN operand
    (and [_CMP_GT_OQ]: ordered, quiet). *)
Definition ltb (a b : Z) : bool := SFltb (decode a) (decode b).
Definition gtb (a b : Z) : bool := SFltb (decode b) (decode a).

(** [static_cast<float>(n)] for an integer [n]. *)
Definition of_Z (n : Z) : Z := encode (binary_normalize prec emax n 0 false).

Definition zero : Z := 0.

(** The value of a finite float as a fraction [num / 2^k], and the pair
    [(num, den)] with [den > 0]. *)
Definition to_frac (w : Z) : option (Z * Z) :=
  match decode w with
  | S754_zero _ => Some (0, 1)
  | S754_finite s m e =>
      let n := if s then Zneg m else Zpos m in
      if 0 <=? e then Some (n * 2 ^ e, 1) else Some (n, 2 ^ (- e))
  | _ => None
  end.

(** [within w num den tn td]: the float [w] is finite and
    [|w - num/den| <= tn/td]. *)
Definition within (w : Z) (num den tn td : Z) : bool :=
  match to_frac w with
  | Some (n, d) =>
      (Z.abs (n * den - num * d) * td <=? tn * (d * den))
  | None => false
  end.

(** [nearest w num den]: among the floats, [w] is one nearest to the
    rational [num/den]: no further from it than the two neighbours of [w]. *)
Definition dist_le (w v : Z) (num den : Z) : bool :=
  match to_frac w, to_frac v with
  | Some (n, d), Some (n', d') =>
      Z.abs (n * den - num * d) * d' <=? Z.abs (n' * den - num * d') * d
  | _, _ => false
  end.

Definition nearest (w : Z) (num den : Z) : bool :=
  dist_le w (encode (SFsucc prec emax (decode w))) num den
  && dist_le w (encode (SFpred prec emax (decode w))) num den.

End F32.


(** ** Conversions and comparisons of the C++ source *)

(** [static_cast<uint8_t>(v)] and [static_cast<char>(v)] of an [int]
    ([char] is signed on the x86 targets the intrinsics exist for). *)
Definition static_cast_uint8_t (v : Z) : Z := v mod 256.
Definition static_cast_char (v : Z) : Z := (v + 128) mod 256 - 128.

(** [std::min(a, b)] is [(b < a) ? b : a]; [std::max(a, b)] is
    [(a < b) ? b : a]. *)
Definition std_min (a b : Z) : Z := if b <? a then b else a.
Definition std_max (a b : Z) : Z := if a <? b then b else a.

(** ** Counted loops

    [for (i = start; i < stop; i++) s = body i s], with the trip count as
    fuel: [for_range start stop body s]. *)
Fixpoint for_loop {St : Type} (fuel : nat) (i stop : Z) (body : Z -> St -> St)
    (s : St) : St :=
  match fuel with
  | O => s
  | S fuel' =>
      if i <? stop then for_loop fuel' (i + 1) stop body (body i s) else s
  end.

Definition for_range {St : Type} (start stop : Z) (body : Z -> St -> St)
    (s : St) : St :=
  for_loop (Z.to_nat (stop - start)) start stop body s.

(** ** Arrays and unaligned lane-group access

    An array is the list of its elements; [a[i]] reads with [!!!] and
    [a[i] = v] writes with [<[i:=v]>].  [loadu W a i] reads the [W] elements
    at [&a[i]], [storeu a i v] overwrites the elements at [&a[i]] by the lanes
    of [v].  The loops below only access a group that lies inside the array. *)
Definition loadu (W : Z) (a : list Z) (i : Z) : list Z :=
  take (Z.to_nat W) (drop (Z.to_nat i) a).

Definition storeu (a : list Z) (i : Z) (v : list Z) : list Z :=
  take (Z.to_nat i) a ++ v ++ drop (Z.to_nat i + length v) a.

(** ** The lane-group loop and the remainder loop

    The shape shared by the kernels that process an array in place:
    [for (; i <= size - W; i += W)] applies the vector operation [Fv] to one
    lane group, then [for (; i < size; i++)] applies the scalar operation
    [Fs] to one element. *)
Section BatchLoops.
Variable W : Z.
Variable Fv : list Z -> list Z.
Variable Fs : Z -> Z.

Fixpoint vector_loop (fuel : nat) (a : list Z) (size i : Z) : list Z * Z :=
  match fuel with
  | O => (a, i)
  | S fuel' =>
      if i <=? size - W
      then vector_loop fuel' (storeu a i (Fv (loadu W a i))) size (i + W)
      else (a, i)
  end.

Definition scalar_step (i : Z) (a : list Z) : list Z :=
  <[Z.to_nat i := Fs (a !!! Z.to_nat i)]> a.

Definition batch_kernel (a : list Z) (size : Z) : list Z :=
  let '(a, i) := vector_loop (Z.to_nat size) a size 0 in
  for_range i size scalar_step a.

(** What the lane-group loop is meant to leave behind: [Fv] applied to
    each of the first [n] groups of [W] elements. *)
Fixpoint map_groups (n : nat) (l : list Z) : list Z :=
  match n with
  | O => []
  | S n' => Fv (take (Z.to_nat W) l) ++ map_groups n' (drop (Z.to_nat W) l)
  end.
End BatchLoops.

(** ** Integer AVX2 intrinsics on 32 unsigned bytes *)

Definition _mm256_set1_epi8 (c : Z) : list Z := replicate 32 (c mod 256).
Definition _mm256_setzero_si256 : list Z := replicate 32 0.
Definition _mm256_adds_epu8 (a b : list Z) : list Z :=
  zip_with (fun x y => Z.min 255 (x + y)) a b.

(** ** 03_Examples/04_image_processing: brightness adjustment *)

(** The loop body shared by the scalar path and the remainder loop:
    [int value = static_cast<int>(image[i]) + brightness;
     image[i] = static_cast<uint8_t>(std::min(255, std::max(0, value)));]
    The sum of the two [int]s is taken in [Z]: it is the sum of the source
    as long as [pixel + brightness] fits an [int], that is for
    [-2^31 <= brightness <= 2^31 - 1 - 255] on a byte; beyond, the addition
    of the source overflows, which C++ leaves undefined. *)
Definition brightness_pixel (brightness : Z) (pixel : Z) : Z :=
  let value := pixel + brightness in
  static_cast_uint8_t (std_min 255 (std_max 0 value)).

Definition adjust_brightness_scalar (image : list Z) (size brightness : Z)
    : list Z :=
  for_range 0 size (scalar_step (brightness_pixel brightness)) image.

Definition adjust_brightness_simd (image : list Z) (size brightness : Z)
    : list Z :=
  let brightness_vec := _mm256_set1_epi8 (static_cast_char brightness) in
  let zero_vec := _mm256_setzero_si256 in
  let max_vec := _mm256_set1_epi8 (static_cast_char 255) in
  let '(image, i) :=
    vector_loop 32 (fun pixels => _mm256_adds_epu8 pixels brightness_vec)
      (Z.to_nat size) image size 0 in
  for_range i size (scalar_step (brightness_pixel brightness)) image.

(** A byte of an image. *)
Definition is_u8 (p : Z) : Prop := 0 <= p <= 255.

(** ** AVX intrinsics on eight floats, SSE intrinsics on four

    After the operation sections of Intel's intrinsics guide.  A pointer
    argument is the array it points into (and an offset where the source
    takes the address of an element). *)

Definition _mm256_setzero_ps : list Z := replicate 8 F32.zero.
Definition _mm256_set1_ps (a : Z) : list Z := replicate 8 a.
Definition _mm256_set_ps (e7 e6 e5 e4 e3 e2 e1 e0 : Z) : list Z :=
  [e0; e1; e2; e3; e4; e5; e6; e7].
Definition _mm_setr_ps (e0 e1 e2 e3 : Z) : list Z := [e0; e1; e2; e3].

(** The 32-bit two's-complement pattern of an [int]. *)
Definition int32_bits (n : Z) : Z := n mod 4294967296.
Definition _mm256_set_epi32 (e7 e6 e5 e4 e3 e2 e1 e0 : Z) : list Z :=
  int32_bits <$> [e0; e1; e2; e3; e4; e5; e6; e7].

Definition _mm256_load_ps (a : list Z) : list Z := loadu 8 a 0.
Definition _mm256_loadu_ps (a : list Z) (i : Z) : list Z := loadu 8 a i.
Definition _mm256_store_ps (a : list Z) (v : list Z) : list Z := storeu a 0 v.
Definition _mm256_storeu_ps (a : list Z) (v : list Z) : list Z := storeu a 0 v.

Definition _mm256_add_ps (a b : list Z) : list Z := zip_with F32.add a b.
Definition _mm256_mul_ps (a b : list Z) : list Z := zip_with F32.mul a b.
Definition _mm256_fmadd_ps (a b c : list Z) : list Z :=
  zip_with (fun ab c => F32.fma ab.1 ab.2 c) (zip a b) c.

(** [MIN(a, b)] is [a < b ? a : b], [MAX(a, b)] is [a > b ? a : b]: the
    second operand when either is a NaN or both are zeros. *)
Definition _mm256_min_ps (a b : list Z) : list Z :=
  zip_with (fun x y => if F32.ltb x y then x else y) a b.
Definition _mm256_max_ps (a b : list Z) : list Z :=
  zip_with (fun x y => if F32.gtb x y then x else y) a b.

(** [_mm256_cmp_ps(a, b, _CMP_GT_OQ)]: all ones in a lane where [a > b],
    all zeros elsewhere. *)
Definition all_ones : Z := 4294967295.
Definition _mm256_cmp_ps_GT_OQ (a b : list Z) : list Z :=
  zip_with (fun x y => if F32.gtb x y then all_ones else 0) a b.

Definition _mm256_and_ps (a b : list Z) : list Z := zip_with Z.land a b.

(** A mask lane selects when its highest bit is set. *)
Definition lane_selected (m : Z) : bool := Z.testbit m 31.

Definition _mm256_blendv_ps (a b mask : list Z) : list Z :=
  zip_with (fun ab m => if lane_selected m then ab.2 else ab.1) (zip a b) mask.

(** [_mm256_maskload_ps(mem, mask)]: lane [i] is [mem[i]] where the mask
    selects and zero elsewhere; memory of a lane that is not selected is not
    read. *)
Definition _mm256_maskload_ps (mem mask : list Z) : list Z :=
  imap (fun i m => if lane_selected m then mem !!! i else 0) mask.

(** [_mm256_maskstore_ps(mem, mask, a)]: [mem[i] = a[i]] for the lanes
    [i < 8] the mask selects; nothing else is written. *)
Definition _mm256_maskstore_ps (mem mask a : list Z) : list Z :=
  imap (fun i old =>
          if bool_decide (i < 8)%nat && lane_selected (mask !!! i)
          then a !!! i else old) mem.

Definition _mm_mul_ps (a b : list Z) : list Z := zip_with F32.mul a b.
Definition _mm_hadd_ps (a b : list Z) : list Z :=
  [F32.add (a !!! 0%nat) (a !!! 1%nat); F32.add (a !!! 2%nat) (a !!! 3%nat);
   F32.add (b !!! 0%nat) (b !!! 1%nat); F32.add (b !!! 2%nat) (b !!! 3%nat)].
Definition _mm_cvtss_f32 (a : list Z) : Z := a !!! 0%nat.

(** [std::min] and [std::max] on [float]. *)
Definition std_minf (a b : Z) : Z := if F32.ltb b a then b else a.
Definition std_maxf (a b : Z) : Z := if F32.ltb a b then b else a.

(** ** 02_Computations/02_dot_product *)

Module Vec3.
Record t : Type := mk { x : Z; y : Z; z : Z }.

(** [return x * other.x + y * other.y + z * other.z;] *)
Definition dot (self other : t) : Z :=
  F32.add (F32.add (F32.mul (x self) (x other)) (F32.mul (y self) (y other)))
          (F32.mul (z self) (z other)).
End Vec3.

Module Vec3Array.
Record t : Type := mk { x : list Z; y : list Z; z : list Z }.

(** [Vec3 v(vectors.x[i], vectors.y[i], vectors.z[i])], the vector that the
    remainder loop of [simdDotProductLarge] builds from element [i] of the
    three arrays. *)
Definition at_ (v : t) (i : Z) : Vec3.t :=
  Vec3.mk (x v !!! Z.to_nat i) (y v !!! Z.to_nat i) (z v !!! Z.to_nat i).

(** The two operands have the same number of elements in every array. *)
Definition same_size (v1 v2 : t) : Prop :=
  length (y v1) = length (x v1) /\ length (z v1) = length (x v1) /\
  length (x v2) = length (x v1) /\ length (y v2) = length (x v1) /\
  length (z v2) = length (x v1).
End Vec3Array.

Definition simdDotProductSoA8 (vectors1 vectors2 : Vec3Array.t) (offset : Z)
    : list Z :=
  let vx1 := _mm256_loadu_ps (Vec3Array.x vectors1) offset in
  let vy1 := _mm256_loadu_ps (Vec3Array.y vectors1) offset in
  let vz1 := _mm256_loadu_ps (Vec3Array.z vectors1) offset in
  let vx2 := _mm256_loadu_ps (Vec3Array.x vectors2) offset in
  let vy2 := _mm256_loadu_ps (Vec3Array.y vectors2) offset in
  let vz2 := _mm256_loadu_ps (Vec3Array.z vectors2) offset in
  let result := _mm256_mul_ps vx1 vx2 in
  let result := _mm256_fmadd_ps vy1 vy2 result in
  let result := _mm256_fmadd_ps vz1 vz2 result in
  result.

Definition simdDotProductSingle (v1 v2 : Vec3.t) : Z :=
  let vec1 := _mm_setr_ps (Vec3.x v1) (Vec3.y v1) (Vec3.z v1) F32.zero in
  let vec2 := _mm_setr_ps (Vec3.x v2) (Vec3.y v2) (Vec3.z v2) F32.zero in
  let mul := _mm_mul_ps vec1 vec2 in
  let hadd1 := _mm_hadd_ps mul mul in
  let hadd2 := _mm_hadd_ps hadd1 hadd1 in
  _mm_cvtss_f32 hadd2.

(** The three phases of [simdDotProductLarge].  The main loop:
    [sum = _mm256_add_ps(sum, simdDotProductSoA8(vectors1, vectors2, i * 8))]
    for [i < blocks], from [sum = _mm256_setzero_ps()]. *)
Definition dot_block_step (vectors1 vectors2 : Vec3Array.t) (i : Z)
    (sum : list Z) : list Z :=
  let dot8 := simdDotProductSoA8 vectors1 vectors2 (i * 8) in
  _mm256_add_ps sum dot8.

Definition dot_accumulator (vectors1 vectors2 : Vec3Array.t) (blocks : Z)
    : list Z :=
  for_range 0 blocks (dot_block_step vectors1 vectors2) _mm256_setzero_ps.

(** The horizontal sum: [_mm256_storeu_ps(result_array, sum)], then
    [total += result_array[i]] for [i < 8], from [total = 0.0f]. *)
Definition dot_horizontal_sum (sum : list Z) : Z :=
  let result_array := _mm256_storeu_ps (replicate 8 0) sum in
  for_range 0 8 (fun i total => F32.add total (result_array !!! Z.to_nat i))
            F32.zero.

(** The remaining vectors: [total += v1.dot(v2)] for
    [blocks * 8 <= i < size]. *)
Definition dot_remainder (vectors1 vectors2 : Vec3Array.t) (blocks size : Z)
    (total : Z) : Z :=
  for_range (blocks * 8) size
    (fun i total =>
       let v1 := Vec3Array.at_ vectors1 i in
       let v2 := Vec3Array.at_ vectors2 i in
       F32.add total (Vec3.dot v1 v2))
    total.

Definition simdDotProductLarge (vectors1 vectors2 : Vec3Array.t) : Z :=
  let size := Z.of_nat (length (Vec3Array.x vectors1)) in
  let blocks := size / 8 in
  let remainder := size mod 8 in
  let sum := dot_accumulator vectors1 vectors2 blocks in
  let total := dot_horizontal_sum sum in
  let total := dot_remainder vectors1 vectors2 blocks size total in
  total.


(** Pairwise (tree) summation of the lanes of a vector, as the horizontal
    reducer of the specification describes it: adjacent lanes are added in
    pairs until one value is left. *)
Fixpoint add_pairs (l : list Z) : list Z :=
  match l with
  | a :: b :: l' => F32.add a b :: add_pairs l'
  | _ => l
  end.

Fixpoint pairwise_sum_fuel (fuel : nat) (l : list Z) : Z :=
  match fuel, l with
  | _, [] => F32.zero
  | _, [a] => a
  | O, a :: _ => a
  | S fuel', _ => pairwise_sum_fuel fuel' (add_pairs l)
  end.

Definition pairwise_sum (l : list Z) : Z := pairwise_sum_fuel (length l) l.

(** The vectors of [main]:
    [Vec3 v1(0.5f, -0.3f, 0.8f); Vec3 v2(0.2f, 0.7f, -0.4f);] *)
Definition f32_0_5 : Z := 1056964608.
Definition f32_m0_3 : Z := 3197737370.
Definition f32_0_8 : Z := 1061997773.
Definition f32_0_2 : Z := 1045220557.
Definition f32_0_7 : Z := 1060320051.
Definition f32_m0_4 : Z := 3201092813.

Definition main_v1 : Vec3.t := Vec3.mk f32_0_5 f32_m0_3 f32_0_8.
Definition main_v2 : Vec3.t := Vec3.mk f32_0_2 f32_0_7 f32_m0_4.

(** Operands on which the order of the additions shows: eight vectors whose
    dot products are 2^24, 1, 1, 1, 1, 1, 1, 1, and sixteen vectors whose
    dot products are 2^24 and seven zeros, then 1, 1 and six zeros. *)
Definition tie_vectors1 : Vec3Array.t :=
  Vec3Array.mk (F32.of_Z <$> [16777216; 1; 1; 1; 1; 1; 1; 1])
               (replicate 8 F32.zero) (replicate 8 F32.zero).
Definition tie_vectors2 : Vec3Array.t :=
  Vec3Array.mk (replicate 8 (F32.of_Z 1))
               (replicate 8 F32.zero) (replicate 8 F32.zero).

Definition two_block_vectors1 : Vec3Array.t :=
  Vec3Array.mk
    (F32.of_Z <$> [16777216; 0; 0; 0; 0; 0; 0; 0; 1; 1; 0; 0; 0; 0; 0; 0])
    (replicate 16 F32.zero) (replicate 16 F32.zero).
Definition two_block_vectors2 : Vec3Array.t :=
  Vec3Array.mk (replicate 16 (F32.of_Z 1))
               (replicate 16 F32.zero) (replicate 16 F32.zero).

(** ** 03_Examples/01_conditional_code

    The lambdas of [main] capture [data1], [data2], [vector1], [vector2],
    [zero] and the result buffers by reference; here they are arguments and
    the buffer written is the result. *)

Definition scalar_clamp (data2 result_scalar : list Z) : list Z :=
  for_range 0 8
    (fun i result_scalar =>
       <[Z.to_nat i := std_maxf (F32.of_Z 5)
                         (std_minf (F32.of_Z 30) (data2 !!! Z.to_nat i))]>
         result_scalar)
    result_scalar.

Definition simd_clamp (vector2 result_simd : list Z) : list Z :=
  let min_val := _mm256_set1_ps (F32.of_Z 5) in
  let max_val := _mm256_set1_ps (F32.of_Z 30) in
  let upper_clamped := _mm256_min_ps vector2 max_val in
  let result := _mm256_max_ps upper_clamped min_val in
  _mm256_store_ps result_simd result.

Definition scalar_filter (data2 result_scalar : list Z) : list Z :=
  for_range 0 8
    (fun i result_scalar =>
       if F32.gtb (data2 !!! Z.to_nat i) (F32.of_Z 0)
       then <[Z.to_nat i := data2 !!! Z.to_nat i]> result_scalar
       else <[Z.to_nat i := F32.zero]> result_scalar)
    result_scalar.

Definition simd_filter (vector2 result_simd : list Z) : list Z :=
  let zero := _mm256_setzero_ps in
  let mask := _mm256_cmp_ps_GT_OQ vector2 zero in
  let result := _mm256_and_ps vector2 mask in
  _mm256_store_ps result_simd result.

Definition scalar_complex (data1 data2 result_scalar : list Z) : list Z :=
  for_range 0 8
    (fun i result_scalar =>
       if F32.gtb (data2 !!! Z.to_nat i) (F32.of_Z 0)
          && F32.gtb (data2 !!! Z.to_nat i) (data1 !!! Z.to_nat i)
       then <[Z.to_nat i := data2 !!! Z.to_nat i]> result_scalar
       else <[Z.to_nat i := F32.zero]> result_scalar)
    result_scalar.

Definition simd_complex (vector1 vector2 result_simd : list Z) : list Z :=
  let zero := _mm256_setzero_ps in
  let pos_mask := _mm256_cmp_ps_GT_OQ vector2 zero in
  let gt_mask := _mm256_cmp_ps_GT_OQ vector2 vector1 in
  let combined := _mm256_and_ps pos_mask gt_mask in
  let result := _mm256_blendv_ps zero vector2 combined in
  _mm256_store_ps result_simd result.

(** [data1] of [main], the array of the clamping scenario. *)
Definition main_data1 : list Z := F32.of_Z <$> [5; 10; 15; 20; 25; 30; 35; 40].
Definition main_data2 : list Z :=
  F32.of_Z <$> [-1; 4; 9; -16; 25; -36; 49; -64].

(** ** 01_Basics/04_loading_data: masked load and masked store *)

Definition ARRAY_SIZE : Z := 8.

(** [__m256i mask = _mm256_set_epi32(0, -1, 0, -1, 0, -1, 0, -1);
     __m256 masked_vec = _mm256_maskload_ps(aligned_data, mask);] *)
Definition masked_load_demo (aligned_data : list Z) : list Z :=
  let mask := _mm256_set_epi32 0 (-1) 0 (-1) 0 (-1) 0 (-1) in
  _mm256_maskload_ps aligned_data mask.

Definition test_vec : list Z :=
  _mm256_set_ps (F32.of_Z 16) (F32.of_Z 14) (F32.of_Z 12) (F32.of_Z 10)
                (F32.of_Z 8) (F32.of_Z 6) (F32.of_Z 4) (F32.of_Z 2).

(** [for (i < ARRAY_SIZE) aligned_data[i] = 0.0f;
     __m256i mask2 = _mm256_set_epi32(-1, 0, -1, 0, -1, 0, -1, 0);
     _mm256_maskstore_ps(aligned_data, mask2, test_vec);] *)
Definition masked_store_demo (aligned_data : list Z) : list Z :=
  let aligned_data :=
    for_range 0 ARRAY_SIZE
      (fun i aligned_data => <[Z.to_nat i := F32.zero]> aligned_data)
      aligned_data in
  let mask2 := _mm256_set_epi32 (-1) 0 (-1) 0 (-1) 0 (-1) 0 in
  _mm256_maskstore_ps aligned_data mask2 test_vec.

(** ** include/simd_utils.h: [benchmark_comparison] *)

(** binary64 ([double]), as [spec_float] values. *)
Module F64.
Definition prec : Z := 53.
Definition emax : Z := 1024.
(** [static_cast<double>(n)] of an integer. *)
Definition of_Z (n : Z) : spec_float := binary_normalize prec emax n 0 false.
Definition div (a b : spec_float) : spec_float := SFdiv prec emax a b.
End F64.

Module Bench.

(** What the harness does to the outside: it calls one of the two
    callables or reads the clock. *)
Inductive event : Type := CallScalar | CallSimd | ClockNow.

(** The callables act on a state [St] the harness knows nothing about.
    The [n]-th reading of [std::chrono::high_resolution_clock::now()] is
    [clock n], in nanoseconds (the tick of libstdc++'s clock). *)
Record machine (St : Type) : Type := mkMachine {
  state : St;
  reads : nat;
  trace : list event
}.
Arguments mkMachine {St} _ _ _.
Arguments state {St} _.
Arguments reads {St} _.
Arguments trace {St} _.

(** What is printed: the label, the two durations and the speedup. *)
Record report : Type := mkReport {
  label : list Byte.byte;
  scalar_micros : Z;
  simd_micros : Z;
  speedup : spec_float
}.

Section Harness.
Context {St : Type}.
Variable clock : nat -> Z.

Definition M (A : Type) : Type := machine St -> A * machine St.
Definition ret {A : Type} (a : A) : M A := fun m => (a, m).
Definition bind {A B : Type} (c : M A) (k : A -> M B) : M B :=
  fun m => let '(a, m') := c m in k a m'.

Notation "'let*' x ':=' c 'in' k" := (bind c (fun x => k))
  (at level 10, x name, c at level 100, k at level 200).

Definition call (e : event) (f : St -> St) : M unit :=
  fun m => (tt, mkMachine (f (state m)) (reads m) (trace m ++ [e])).

Definition now : M Z :=
  fun m => (clock (reads m),
            mkMachine (state m) (S (reads m)) (trace m ++ [ClockNow])).

(** [for (int i = 0; i < iterations; i++) f();] *)
Definition repeat_call (iterations : Z) (c : M unit) : M unit :=
  fun m => (tt, for_range 0 iterations (fun _ m => snd (c m)) m).

(** [duration_cast<microseconds>(end - start).count()] *)
Definition duration_micros (start_time end_time : Z) : Z :=
  Z.quot (end_time - start_time) 1000.

Definition benchmark_comparison (label : list Byte.byte)
    (scalar_func simd_func : St -> St) (iterations : Z) : M report :=
  let* _ := call CallScalar scalar_func in
  let* _ := call CallSimd simd_func in
  let* scalar_start := now in
  let* _ := repeat_call iterations (call CallScalar scalar_func) in
  let* scalar_end := now in
  let scalar_duration := duration_micros scalar_start scalar_end in
  let* simd_start := now in
  let* _ := repeat_call iterations (call CallSimd simd_func) in
  let* simd_end := now in
  let simd_duration := duration_micros simd_start simd_end in
  let speedup :=
    F64.div (F64.of_Z scalar_duration) (F64.of_Z simd_duration) in
  ret (mkReport label scalar_duration simd_duration speedup).
End Harness.

End Bench.

(** ** include/simd_utils.h: [aligned_alloc] *)

Module Alloc.

(** [posix_memalign] reports success with 0, a bad alignment with
    [EINVAL] and exhaustion with [ENOMEM]. *)
Definition EINVAL : Z := 22.
Definition ENOMEM : Z := 12.

(** The alignments POSIX accepts: a power of two that is a multiple of
    [sizeof(void * )]. *)
Definition power_of_two (a : Z) : bool := (0 <? a) && (Z.land a (a - 1) =? 0).
Definition posix_alignment (a : Z) : bool := power_of_two a && (a mod 8 =? 0).

Inductive outcome : Type :=
| Returned (ptr : Z)
| Thrown_bad_alloc.

Section Allocator.
Context {Heap : Type}.
(** [posix_memalign h alignment size] is the return code, the pointer
    stored through [memptr] and the heap afterwards. *)
Variable posix_memalign : Heap -> Z -> Z -> Z * Z * Heap.
(** [sizeof(T)] *)
Variable sizeof_T : Z.

(** [size * sizeof(T)] in [size_t]. *)
Definition request_bytes (size : Z) : Z :=
  (size * sizeof_T) mod 18446744073709551616.

Definition aligned_alloc (h : Heap) (size alignment : Z)
    : outcome * Heap :=
  let '(rc, ptr, h') := posix_memalign h alignment (request_bytes size) in
  if negb (rc =? 0) then (Thrown_bad_alloc, h') else (Returned ptr, h').

(** [size_t alignment = 32] when the caller gives none. *)
Definition aligned_alloc_default (h : Heap) (size : Z) : outcome * Heap :=
  aligned_alloc h size 32.
End Allocator.

(** The contract of [posix_memalign] the engine relies on. *)
Record posix_contract {Heap : Type}
    (posix_memalign : Heap -> Z -> Z -> Z * Z * Heap) : Prop := {
  memalign_aligned :
    forall h alignment size ptr h',
      posix_memalign h alignment size = (0, ptr, h') ->
      ptr mod alignment = 0;
  memalign_einval :
    forall h alignment size,
      posix_alignment alignment = false ->
      (posix_memalign h alignment size).1.1 = EINVAL
}.

(** A reference allocator: the heap is the first free address below a
    limit; a block is carved at the next multiple of the alignment. *)
Definition bump_limit : Z := 1048576.
Definition bump_memalign (next : Z) (alignment size : Z) : Z * Z * Z :=
  if negb (posix_alignment alignment) then (EINVAL, 0, next)
  else
    let ptr := (next + alignment - 1) / alignment * alignment in
    if ptr + size <=? bump_limit then (0, ptr, ptr + size)
    else (ENOMEM, 0, next).

End Alloc.

(** ** 02_Computations/02_dot_product: the array-of-structures side *)

(** [Vec3(float x = 0.0f, float y = 0.0f, float z = 0.0f)] *)
#[global] Instance Vec3_inhabited : Inhabited Vec3.t :=
  populate (Vec3.mk F32.zero F32.zero F32.zero).

(** [Vec3Array(size_t size) : x(size), y(size), z(size)]: three vectors of
    [size] zeros. *)
Definition Vec3Array_new (size : Z) : Vec3Array.t :=
  Vec3Array.mk (replicate (Z.to_nat size) F32.zero)
               (replicate (Z.to_nat size) F32.zero)
               (replicate (Z.to_nat size) F32.zero).

(** [void set(size_t index, const Vec3& vec)] *)
Definition Vec3Array_set (self : Vec3Array.t) (index : Z) (vec : Vec3.t)
    : Vec3Array.t :=
  Vec3Array.mk (<[Z.to_nat index := Vec3.x vec]> (Vec3Array.x self))
               (<[Z.to_nat index := Vec3.y vec]> (Vec3Array.y self))
               (<[Z.to_nat index := Vec3.z vec]> (Vec3Array.z self)).

Definition convertToSoA (vectors : list Vec3.t) : Vec3Array.t :=
  let result := Vec3Array_new (Z.of_nat (length vectors)) in
  for_range 0 (Z.of_nat (length vectors))
    (fun i result => Vec3Array_set result i (vectors !!! Z.to_nat i))
    result.

(** [sum += vectors1[i].dot(vectors2[i])] for [i < vectors1.size()], from
    [0.0f]. *)
Definition scalarDotProduct (vectors1 vectors2 : list Vec3.t) : Z :=
  for_range 0 (Z.of_nat (length vectors1))
    (fun i sum =>
       F32.add sum (Vec3.dot (vectors1 !!! Z.to_nat i)
                             (vectors2 !!! Z.to_nat i)))
    F32.zero.

(** The six arrays [x1, y1, z1, x2, y2, z2] of [simdDotProduct8]. *)
Record components8 : Type := mkComponents8 {
  c_x1 : list Z; c_y1 : list Z; c_z1 : list Z;
  c_x2 : list Z; c_y2 : list Z; c_z2 : list Z
}.

Definition simdDotProduct8 (vectors1 vectors2 : list Vec3.t) : list Z :=
  let arrays :=
    for_range 0 8
      (fun i c =>
         let n := Z.to_nat i in
         mkComponents8
           (<[n := Vec3.x (vectors1 !!! n)]> (c_x1 c))
           (<[n := Vec3.y (vectors1 !!! n)]> (c_y1 c))
           (<[n := Vec3.z (vectors1 !!! n)]> (c_z1 c))
           (<[n := Vec3.x (vectors2 !!! n)]> (c_x2 c))
           (<[n := Vec3.y (vectors2 !!! n)]> (c_y2 c))
           (<[n := Vec3.z (vectors2 !!! n)]> (c_z2 c)))
      (mkComponents8 (replicate 8 0) (replicate 8 0) (replicate 8 0)
                     (replicate 8 0) (replicate 8 0) (replicate 8 0)) in
  let vx1 := _mm256_loadu_ps (c_x1 arrays) 0 in
  let vy1 := _mm256_loadu_ps (c_y1 arrays) 0 in
  let vz1 := _mm256_loadu_ps (c_z1 arrays) 0 in
  let vx2 := _mm256_loadu_ps (c_x2 arrays) 0 in
  let vy2 := _mm256_loadu_ps (c_y2 arrays) 0 in
  let vz2 := _mm256_loadu_ps (c_z2 arrays) 0 in
  let result := _mm256_mul_ps vx1 vx2 in
  let result := _mm256_fmadd_ps vy1 vy2 result in
  let result := _mm256_fmadd_ps vz1 vz2 result in
  result.

(** A float that is neither an infinity nor a NaN, and a zero of either
    sign. *)
Definition f32_finite (w : Z) : Prop :=
  match F32.decode w with
  | S754_zero _ | S754_finite _ _ _ => True
  | _ => False
  end.
Definition f32_is_zero (w : Z) : Prop := w = 0 \/ w = 2147483648.

(** ** 03_Examples/01_conditional_code: the bit mask of a comparison *)

(** [_mm256_movemask_ps(a)]: bit [i] is the highest bit of lane [i]. *)
Fixpoint _mm256_movemask_ps (a : list Z) : Z :=
  match a with
  | [] => 0
  | lane :: a' => Z.b2z (lane_selected lane) + 2 * _mm256_movemask_ps a'
  end.

(** [int bitmask = _mm256_movemask_ps(_mm256_cmp_ps(vector2, zero,
    _CMP_GT_OQ));] *)
Definition positive_bitmask (vector2 : list Z) : Z :=
  let zero := _mm256_setzero_ps in
  let positive_mask := _mm256_cmp_ps_GT_OQ vector2 zero in
  _mm256_movemask_ps positive_mask.

(** A lane of a float vector: a 32-bit pattern. *)
Definition is_u32 (w : Z) : Prop := 0 <= w < 4294967296.

(** [a <= b] on floats: false when either is a NaN. *)
Definition f32_leb (a b : Z) : bool := SFleb (F32.decode a) (F32.decode b).

(** ** 03_Examples/04_image_processing: contrast enhancement *)

Definition f32_sub (a b : Z) : Z :=
  F32.encode (SFsub F32.prec F32.emax (F32.decode a) (F32.decode b)).

(** The integer part of a finite float (rounding toward zero), and the
    integer nearest to it (ties to the even one). *)
Definition SF_truncate (x : spec_float) : Z :=
  match x with
  | S754_finite s m e =>
      let n := if 0 <=? e then Zpos m * 2 ^ e else Zpos m / 2 ^ (- e) in
      if s then - n else n
  | _ => 0
  end.

Definition SF_nearest_even (x : spec_float) : Z :=
  match x with
  | S754_finite s m e =>
      let n :=
        if 0 <=? e then Zpos m * 2 ^ e
        else
          let q := Zpos m / 2 ^ (- e) in
          let r := Zpos m mod 2 ^ (- e) in
          let half := 2 ^ (- e - 1) in
          if r <? half then q
          else if half <? r then q + 1
          else if Z.even q then q else q + 1 in
      if s then - n else n
  | _ => 0
  end.

(** [static_cast<uint8_t>(value)] of a [float]: the integer part, defined
    by C++ when it fits a byte, which the clamp before the cast ensures. *)
Definition static_cast_uint8_t_float (w : Z) : Z :=
  SF_truncate (F32.decode w) mod 256.

(** [_mm256_cvtepu8_epi32]: eight bytes, zero-extended to 32 bits. *)
Definition _mm256_cvtepu8_epi32 (a : list Z) : list Z := take 8 a.

(** The value of a 32-bit pattern as a signed [int]. *)
Definition int32_value (w : Z) : Z := if w <? 2147483648 then w else w - 4294967296.

Definition _mm256_cvtepi32_ps (a : list Z) : list Z :=
  (fun w => F32.of_Z (int32_value w)) <$> a.

(** [_mm256_cvtps_epi32]: round to the nearest integer (ties to even, the
    default rounding mode); the integer indefinite value 0x80000000 when
    the result does not fit an [int] or the float is not finite. *)
Definition cvtps_epi32_lane (w : Z) : Z :=
  match F32.decode w with
  | S754_zero _ => 0
  | S754_finite _ _ _ =>
      let n := SF_nearest_even (F32.decode w) in
      if (-2147483648 <=? n) && (n <? 2147483648) then int32_bits n
      else 2147483648
  | _ => 2147483648
  end.
Definition _mm256_cvtps_epi32 (a : list Z) : list Z := cvtps_epi32_lane <$> a.

(** [_mm256_cvtepi32_epi8]: the low byte of each lane. *)
Definition _mm256_cvtepi32_epi8 (a : list Z) : list Z :=
  (fun w => w mod 256) <$> a.

Definition _mm256_sub_ps (a b : list Z) : list Z := zip_with f32_sub a b.

Definition f32_128 : Z := F32.of_Z 128.
Definition f32_255 : Z := F32.of_Z 255.

(** [float value = (static_cast<float>(image[i]) - 128.0f) * contrast
                   + 128.0f;
     image[i] = static_cast<uint8_t>(std::min(255.0f,
                                               std::max(0.0f, value)));] *)
Definition contrast_pixel (contrast : Z) (pixel : Z) : Z :=
  let value :=
    F32.add (F32.mul (f32_sub (F32.of_Z pixel) f32_128) contrast) f32_128 in
  static_cast_uint8_t_float (std_minf f32_255 (std_maxf F32.zero value)).

Definition enhance_contrast_scalar (image : list Z) (size contrast : Z)
    : list Z :=
  for_range 0 size (scalar_step (contrast_pixel contrast)) image.

(** The body of the vector loop, from the eight bytes loaded by
    [_mm_loadl_epi64] to the eight bytes stored by [_mm_storel_epi64]. *)
Definition contrast_group (contrast : Z) (pixels_epi8 : list Z) : list Z :=
  let contrast_vec := _mm256_set1_ps contrast in
  let offset_vec := _mm256_set1_ps f32_128 in
  let min_vec := _mm256_setzero_ps in
  let max_vec := _mm256_set1_ps f32_255 in
  let pixels_epi32 := _mm256_cvtepu8_epi32 pixels_epi8 in
  let pixels_ps := _mm256_cvtepi32_ps pixels_epi32 in
  let centered := _mm256_sub_ps pixels_ps offset_vec in
  let scaled := _mm256_mul_ps centered contrast_vec in
  let result_ps := _mm256_add_ps scaled offset_vec in
  let result_ps := _mm256_min_ps (_mm256_max_ps result_ps min_vec) max_vec in
  let result_epi32 := _mm256_cvtps_epi32 result_ps in
  let result_epi8 := _mm256_cvtepi32_epi8 result_epi32 in
  result_epi8.

Definition enhance_contrast_simd (image : list Z) (size contrast : Z)
    : list Z :=
  let '(image, i) :=
    vector_loop 8 (contrast_group contrast) (Z.to_nat size) image size 0 in
  for_range i size (scalar_step (contrast_pixel contrast)) image.

(** What the vector loop computes in one lane. *)
Definition contrast_lane (contrast : Z) (pixel : Z) : Z :=
  let value :=
    F32.add (F32.mul (f32_sub (F32.of_Z (int32_value pixel)) f32_128) contrast)
            f32_128 in
  cvtps_epi32_lane (std_minf f32_255 (std_maxf F32.zero value)) mod 256.

Definition f32_1_0 : Z := F32.of_Z 1.
Definition f32_1_5 : Z := 1069547520.

(** ** 03_Examples/04_image_processing: the brightness benchmark of [main] *)

Definition WIDTH : Z := 1024.
Definition HEIGHT : Z := 768.
Definition CHANNELS : Z := 3.
Definition IMAGE_SIZE : Z := WIDTH * HEIGHT * CHANNELS.

(** [initialize_test_image]: a gradient, three bytes a pixel.  [int]
    division truncates. *)
Definition initialize_test_image (image : list Z)
    (width height channels : Z) : list Z :=
  for_range 0 height (fun y image =>
    for_range 0 width (fun x image =>
      let idx := (y * width + x) * channels in
      let image :=
        <[Z.to_nat (idx + 0) := static_cast_uint8_t (Z.quot (x * 255) width)]>
          image in
      let image :=
        <[Z.to_nat (idx + 1) := static_cast_uint8_t (Z.quot (y * 255) height)]>
          image in
      <[Z.to_nat (idx + 2) := static_cast_uint8_t 128]> image) image) image.

(** [std::copy(first, first + n, d_first)] *)
Definition std_copy (src : list Z) (n : Z) (dst : list Z) : list Z :=
  take (Z.to_nat n) src ++ drop (Z.to_nat n) dst.

(** The two callables; the state they share is [processed_image]. *)
Definition brightness_scalar (processed_image : list Z) : list Z :=
  adjust_brightness_scalar processed_image IMAGE_SIZE 50.

Definition brightness_simd (original_image processed_image : list Z)
    : list Z :=
  let processed_image := std_copy original_image IMAGE_SIZE processed_image in
  adjust_brightness_simd processed_image IMAGE_SIZE 50.

(** ** 01_Basics/04_loading_data: the streaming loop *)

Definition LARGE_SIZE : Z := 1024.
Definition f32_2_0 : Z := F32.of_Z 2.

(** [for (int i = 0; i < LARGE_SIZE; i++)
       large_array[i] = static_cast<float>(i);] *)
Definition initialize_large_array (large_array : list Z) : list Z :=
  for_range 0 LARGE_SIZE
    (fun i large_array => <[Z.to_nat i := F32.of_Z i]> large_array)
    large_array.

(** [_mm256_stream_ps]: a store that bypasses the cache; to the array it is
    a store. *)
Definition _mm256_stream_ps (a : list Z) (i : Z) (v : list Z) : list Z :=
  storeu a i v.

(** [for (int i = 0; i < LARGE_SIZE; i += 8) {
       loaded = _mm256_loadu_ps(&large_array[i]);
       processed = _mm256_mul_ps(loaded, _mm256_set1_ps(2.0f));
       _mm256_stream_ps(&large_array[i], processed); }] *)
Fixpoint stream_loop (fuel : nat) (large_array : list Z) (i : Z) : list Z :=
  match fuel with
  | O => large_array
  | S fuel' =>
      if i <? LARGE_SIZE then
        let loaded := _mm256_loadu_ps large_array i in
        let processed := _mm256_mul_ps loaded (_mm256_set1_ps f32_2_0) in
        stream_loop fuel' (_mm256_stream_ps large_array i processed) (i + 8)
      else large_array
  end.

Definition stream_double (large_array : list Z) : list Z :=
  stream_loop (Z.to_nat LARGE_SIZE) large_array 0.

(* ===================================================================== *)
(** * Properties *)

Section loops.
Context {St : Type}.

Lemma for_loop_foldl (body : Z -> St -> St) (stop : Z) (fuel : nat) :
  forall (i : Z) (s : St),
    fuel = Z.to_nat (stop - i) ->
    for_loop fuel i stop body s
    = foldl (fun s k => body k s) s (seqZ i (stop - i)).
Proof.
  induction fuel as [|fuel IH]; intros i s Hfuel; simpl.
  - rewrite seqZ_nil by lia. reflexivity.
  - destruct (Z.ltb_spec i stop) as [Hlt|Hge]; [|lia].
    rewrite seqZ_cons by lia. simpl.
    rewrite IH by lia. do 2 f_equal; lia.
Qed.

Lemma for_range_foldl (body : Z -> St -> St) (start stop : Z) (s : St) :
  for_range start stop body s
  = foldl (fun s k => body k s) s (seqZ start (stop - start)).
Proof. unfold for_range. now apply for_loop_foldl. Qed.
End loops.

Section batch_facts.
Variable W : Z.
Variable Fv : list Z -> list Z.
Variable Fs : Z -> Z.

Lemma scalar_tail_fuel (size : Z) (fuel : nat) :
  forall (i : Z) (a : list Z),
    0 <= i <= size -> size <= Z.of_nat (length a) ->
    fuel = Z.to_nat (size - i) ->
    for_loop fuel i size (scalar_step Fs) a
    = take (Z.to_nat i) a
      ++ (Fs <$> take fuel (drop (Z.to_nat i) a))
      ++ drop (Z.to_nat size) a.
Proof.
  induction fuel as [|fuel IH]; intros i a Hi Hsz Hfuel; simpl.
  - replace i with size by lia. now rewrite take_drop.
  - destruct (Z.ltb_spec i size) as [Hlt|Hge]; [|lia].
    destruct (lookup_lt_is_Some_2 a (Z.to_nat i)) as [x Hx]; [lia|].
    unfold scalar_step at 2.
    rewrite (list_lookup_total_correct _ _ _ Hx).
    rewrite IH; rewrite ?length_insert; try lia.
    replace (Z.to_nat (i + 1)) with (S (Z.to_nat i)) by lia.
    rewrite (take_S_r _ _ (Fs x))
      by (apply list_lookup_insert_eq; lia).
    rewrite take_insert_ge by lia.
    rewrite !drop_insert_lt by lia.
    rewrite (drop_S _ _ _ Hx). simpl.
    now rewrite <- app_assoc.
Qed.

Lemma scalar_tail_spec (a : list Z) (size i : Z) :
  0 <= i <= size -> size <= Z.of_nat (length a) ->
  for_range i size (scalar_step Fs) a
  = take (Z.to_nat i) a
    ++ (Fs <$> take (Z.to_nat (size - i)) (drop (Z.to_nat i) a))
    ++ drop (Z.to_nat size) a.
Proof. intros. unfold for_range. now apply scalar_tail_fuel. Qed.

Variable valid : Z -> Prop.
Hypothesis W_pos : 0 < W.
Hypothesis Fv_lanes :
  forall g, Z.of_nat (length g) = W -> Forall valid g ->
            Z.of_nat (length (Fv g)) = W.

Lemma vector_loop_spec (size : Z) (k : nat) :
  forall (fuel : nat) (a : list Z) (i : Z),
    0 <= i -> size <= Z.of_nat (length a) ->
    Forall valid (drop (Z.to_nat i) a) ->
    Z.of_nat k = (size - i) / W -> (k <= fuel)%nat ->
    vector_loop W Fv fuel a size i
    = (take (Z.to_nat i) a
         ++ map_groups W Fv k (drop (Z.to_nat i) a)
         ++ drop (Z.to_nat (i + Z.of_nat k * W)) a,
       i + Z.of_nat k * W).
Proof.
  induction k as [|k IH]; intros fuel a i Hi Hsz Hval Hk Hfuel.
  - assert (size - i < W)
      by (destruct (Z.lt_ge_cases (size - i) W) as [|Hge]; [easy|];
          pose proof (Z.div_le_lower_bound (size - i) W 1); lia).
    replace (i + Z.of_nat 0 * W) with i by lia. simpl.
    rewrite take_drop.
    destruct fuel; simpl; [reflexivity|].
    destruct (Z.leb_spec i (size - W)); [lia|reflexivity].
  - assert (W <= size - i)
      by (destruct (Z.lt_ge_cases (size - i) W) as [Hlt|]; [|easy];
          pose proof (Z.div_lt_upper_bound (size - i) W 1); lia).
    destruct fuel as [|fuel]; [lia|]. simpl.
    destruct (Z.leb_spec i (size - W)); [|lia].
    set (g := loadu W a i).
    assert (Hg : Z.of_nat (length g) = W)
      by (unfold g, loadu; rewrite length_take, length_drop; lia).
    assert (Hv : Z.of_nat (length (Fv g)) = W)
      by (apply Fv_lanes; [easy|]; now apply Forall_take).
    assert (Hdrop : drop (Z.to_nat (i + W)) (storeu a i (Fv g))
                    = drop (Z.to_nat (i + W)) a).
    { unfold storeu. rewrite app_assoc, drop_app_length'.
      - f_equal; lia.
      - rewrite length_app, length_take; lia. }
    assert (HSk : Z.of_nat (S k) * W = W + Z.of_nat k * W) by lia.
    rewrite HSk.
    rewrite IH; try lia.
    + f_equal; [|lia].
      rewrite Hdrop.
      replace (take (Z.to_nat (i + W)) (storeu a i (Fv g)))
        with (take (Z.to_nat i) a ++ Fv g).
      * rewrite <- !app_assoc. do 2 f_equal.
        f_equal; [rewrite drop_drop; do 2 f_equal; lia|].
        unfold storeu. rewrite app_assoc, drop_app_ge;
          rewrite length_app, length_take; [|lia].
        rewrite drop_drop. f_equal. nia.
      * unfold storeu. rewrite app_assoc, take_app_length'; [easy|].
        rewrite length_app, length_take; lia.
    + unfold storeu. rewrite !length_app, length_take, length_drop. lia.
    + rewrite Hdrop.
      replace (Z.to_nat (i + W)) with (Z.to_nat i + Z.to_nat W)%nat by lia.
      rewrite <- drop_drop. now apply Forall_drop.
    + replace (size - (i + W)) with (size - i + (-1) * W) by lia.
      rewrite Z.div_add by lia. lia.
Qed.

Lemma length_map_groups (n : nat) :
  forall l : list Z,
    Z.of_nat n * W <= Z.of_nat (length l) -> Forall valid l ->
    Z.of_nat (length (map_groups W Fv n l)) = Z.of_nat n * W.
Proof.
  induction n as [|n IH]; intros l Hl Hval; simpl; [lia|].
  rewrite length_app, Nat2Z.inj_add, IH.
  - rewrite Fv_lanes; [lia| |now apply Forall_take].
    rewrite length_take. lia.
  - rewrite length_drop. lia.
  - now apply Forall_drop.
Qed.

(** The whole driver: [size / W] lane groups by [Fv], then the
    [size mod W] trailing elements by [Fs]; what lies behind [size] is
    left alone. *)
Lemma batch_kernel_spec (a : list Z) (size : Z) :
  0 <= size <= Z.of_nat (length a) -> Forall valid a ->
  batch_kernel W Fv Fs a size
  = map_groups W Fv (Z.to_nat (size / W)) a
    ++ (Fs <$> take (Z.to_nat (size mod W))
                    (drop (Z.to_nat (size - size mod W)) a))
    ++ drop (Z.to_nat size) a.
Proof.
  intros Hsz Hval. unfold batch_kernel.
  pose proof (Z.div_pos size W) as Hq.
  pose proof (Z.mod_pos_bound size W W_pos) as Hr.
  pose proof (Z.div_mod size W) as Hqr.
  assert (Hfull : size - size mod W = Z.of_nat (Z.to_nat (size / W)) * W)
    by lia.
  assert (Hlen := length_map_groups (Z.to_nat (size / W)) a).
  rewrite <- Hfull in Hlen. specialize (Hlen ltac:(lia) Hval).
  rewrite (vector_loop_spec size (Z.to_nat (size / W)));
    [| lia | lia | easy | rewrite Z.sub_0_r; lia | nia].
  change (Z.to_nat 0) with 0%nat. rewrite take_0, drop_0. simpl.
  rewrite <- Hfull.
  set (done := map_groups W Fv (Z.to_nat (size / W)) a) in *.
  assert (Hd : length done = Z.to_nat (size - size mod W)) by lia.
  rewrite scalar_tail_spec;
    [| lia | rewrite length_app, length_drop; lia].
  rewrite take_app_length', drop_app_length' by easy.
  rewrite drop_app_ge, drop_drop by lia.
  do 3 f_equal; [f_equal|]; lia.
Qed.

Variable R : Z -> Z -> Prop.
Hypothesis R_refl : forall x, R x x.
Hypothesis Fv_agrees :
  forall g, Z.of_nat (length g) = W -> Forall valid g ->
            Forall2 R (Fv g) (Fs <$> g).

Lemma map_groups_agree (n : nat) :
  forall l : list Z,
    Z.of_nat n * W <= Z.of_nat (length l) -> Forall valid l ->
    Forall2 R (map_groups W Fv n l)
              (Fs <$> take (Z.to_nat (Z.of_nat n * W)) l).
Proof.
  induction n as [|n IH]; intros l Hl Hval; simpl map_groups.
  - simpl. constructor.
  - replace (Z.to_nat (Z.of_nat (S n) * W))
      with (Z.to_nat W + Z.to_nat (Z.of_nat n * W))%nat by lia.
    rewrite <- take_take_drop, fmap_app.
    apply Forall2_app.
    + apply Fv_agrees; [|now apply Forall_take].
      rewrite length_take. lia.
    + apply IH; [|now apply Forall_drop].
      rewrite length_drop. lia.
Qed.
End batch_facts.

Lemma Forall2_eq_inv {A : Type} (l k : list A) : Forall2 eq l k -> l = k.
Proof. induction 1; congruence. Qed.

(** The driver agrees with the scalar operation wherever the vector
    operation does, up to the same relation [R]. *)
Lemma batch_kernel_agree (W : Z) (Fv : list Z -> list Z) (Fs : Z -> Z)
    (valid : Z -> Prop) (R : Z -> Z -> Prop) (a : list Z) (size : Z) :
  0 < W -> (forall x, R x x) ->
  (forall g, Z.of_nat (length g) = W -> Forall valid g ->
             Forall2 R (Fv g) (Fs <$> g)) ->
  0 <= size <= Z.of_nat (length a) -> Forall valid a ->
  Forall2 R (batch_kernel W Fv Fs a size)
            ((Fs <$> take (Z.to_nat size) a) ++ drop (Z.to_nat size) a).
Proof.
  intros HW Hrefl Hagree Hsz Hval.
  assert (Hlanes : forall g, Z.of_nat (length g) = W -> Forall valid g ->
                             Z.of_nat (length (Fv g)) = W).
  { intros g Hg Hg'. rewrite (Forall2_length _ _ _ (Hagree g Hg Hg')).
    now rewrite length_fmap. }
  rewrite (batch_kernel_spec W Fv Fs valid HW Hlanes) by easy.
  pose proof (Z.div_pos size W) as Hq.
  pose proof (Z.mod_pos_bound size W HW) as Hr.
  pose proof (Z.div_mod size W) as Hqr.
  assert (Hfull : size - size mod W = Z.of_nat (Z.to_nat (size / W)) * W)
    by lia.
  replace (Z.to_nat size)
    with (Z.to_nat (size - size mod W) + Z.to_nat (size mod W))%nat at 2
    by lia.
  rewrite <- take_take_drop, fmap_app, <- app_assoc.
  apply Forall2_app; [|apply Forall2_app].
  - rewrite Hfull. apply (map_groups_agree W Fv Fs valid HW R); try easy. lia.
  - apply Forall_Forall2_diag, Forall_forall. auto.
  - apply Forall_Forall2_diag, Forall_forall. auto.
Qed.

(** *** Brightness: the vector operation on one group of 32 bytes *)

Lemma static_cast_char_u8 (b : Z) : static_cast_char b mod 256 = b mod 256.
Proof.
  unfold static_cast_char.
  rewrite Zminus_mod, Zmod_mod, <- Zminus_mod. f_equal. lia.
Qed.

Lemma brightness_pixel_saturates (b p : Z) :
  0 <= b <= 255 -> is_u8 p -> brightness_pixel b p = Z.min 255 (p + b).
Proof.
  unfold is_u8, brightness_pixel, static_cast_uint8_t, std_min, std_max.
  intros Hb Hp. cbv zeta.
  destruct (Z.ltb_spec 0 (p + b)); destruct (Z.ltb_spec (p + b) 255);
    try destruct (Z.ltb_spec 0 255); rewrite Z.mod_small; lia.
Qed.

Lemma brightness_group_agrees (b : Z) (g : list Z) :
  0 <= b <= 255 -> Z.of_nat (length g) = 32 -> Forall is_u8 g ->
  _mm256_adds_epu8 g (_mm256_set1_epi8 (static_cast_char b))
  = brightness_pixel b <$> g.
Proof.
  intros Hb Hg Hval. unfold _mm256_adds_epu8, _mm256_set1_epi8.
  rewrite static_cast_char_u8, Z.mod_small by lia.
  rewrite zip_with_replicate_r_eq by lia.
  apply Forall_fmap_ext_1. eapply Forall_impl; [exact Hval|].
  intros p Hp. simpl. now rewrite brightness_pixel_saturates.
Qed.

Lemma adjust_brightness_scalar_spec (image : list Z) (size b : Z) :
  0 <= size <= Z.of_nat (length image) ->
  adjust_brightness_scalar image size b
  = (brightness_pixel b <$> take (Z.to_nat size) image)
    ++ drop (Z.to_nat size) image.
Proof.
  intros Hsz. unfold adjust_brightness_scalar.
  rewrite scalar_tail_spec by lia.
  change (Z.to_nat 0) with 0%nat. rewrite take_0, drop_0, Z.sub_0_r.
  reflexivity.
Qed.

Lemma adjust_brightness_simd_spec (image : list Z) (size b : Z) :
  0 <= b <= 255 -> 0 <= size <= Z.of_nat (length image) ->
  Forall is_u8 image ->
  adjust_brightness_simd image size b
  = (brightness_pixel b <$> take (Z.to_nat size) image)
    ++ drop (Z.to_nat size) image.
Proof.
  intros Hb Hsz Hval. apply Forall2_eq_inv.
  apply (batch_kernel_agree 32 _ (brightness_pixel b) is_u8 eq);
    try easy.
  intros g Hg Hg'. rewrite brightness_group_agrees by easy.
  apply Forall_Forall2_diag, Forall_forall. auto.
Qed.

(** [adjust_brightness_simd] is the two loops at lane width 32. *)
Lemma adjust_brightness_simd_batch (image : list Z) (size brightness : Z) :
  adjust_brightness_simd image size brightness
  = batch_kernel 32
      (fun pixels =>
         _mm256_adds_epu8 pixels
           (_mm256_set1_epi8 (static_cast_char brightness)))
      (brightness_pixel brightness) image size.
Proof. reflexivity. Qed.

(** *** C1 and C9 *)

(** C1. For every array length [N] (also [N = 0] and [N < W]) the lane-group
    loop followed by the remainder loop computes the [N / W] full groups by
    the vector operation and the trailing [N mod W] elements by the scalar
    operation, and the result is element-wise the scalar operation on all
    [N] elements, up to the relation [R] in which the vector operation
    agrees with the scalar one on a group: equality for an exact (integer)
    kernel, a tolerance for a floating-point one. *)
Theorem batch_kernel_elementwise (W : Z) (Fv : list Z -> list Z)
    (Fs : Z -> Z) (valid : Z -> Prop) (R : Z -> Z -> Prop) (a : list Z) :
  0 < W -> (forall x, R x x) ->
  (forall g, Z.of_nat (length g) = W -> Forall valid g ->
             Forall2 R (Fv g) (Fs <$> g)) ->
  Forall valid a ->
  let N := Z.of_nat (length a) in
  batch_kernel W Fv Fs a N
  = map_groups W Fv (Z.to_nat (N / W)) a
    ++ (Fs <$> drop (Z.to_nat (N - N mod W)) a)
  /\ Forall2 R (batch_kernel W Fv Fs a N) (Fs <$> a).
Proof.
  intros HW Hrefl Hagree Hval N. split.
  - rewrite (batch_kernel_spec W Fv Fs valid HW); [| |lia|easy].
    + pose proof (Z.mod_pos_bound N W HW).
      rewrite (drop_ge a (Z.to_nat N)), app_nil_r by lia.
      rewrite take_ge; [easy|]. rewrite length_drop. lia.
    + intros g Hg Hg'. rewrite (Forall2_length _ _ _ (Hagree g Hg Hg')).
      now rewrite length_fmap.
  - pose proof (batch_kernel_agree W Fv Fs valid R a N HW Hrefl Hagree) as H.
    rewrite take_ge, drop_ge, app_nil_r in H by lia.
    apply H; [lia|easy].
Qed.

Lemma batch_kernel_elementwise_witness :
  let Fv := fun pixels =>
    _mm256_adds_epu8 pixels (_mm256_set1_epi8 (static_cast_char 50)) in
  let Fs := brightness_pixel 50 in
  let a := seqZ 190 66 in
  batch_kernel 32 Fv Fs a 66
  = map_groups 32 Fv 2 a ++ (Fs <$> drop 64 a)
  /\ Forall2 eq (batch_kernel 32 Fv Fs a 66) (Fs <$> a).
Proof.
  intros Fv Fs a.
  apply (batch_kernel_elementwise 32 Fv Fs is_u8 eq a).
  - lia.
  - reflexivity.
  - intros g Hg Hg'. unfold Fv, Fs.
    rewrite brightness_group_agrees by (try easy; lia).
    apply Forall_Forall2_diag, Forall_forall. auto.
  - apply Forall_forall. intros p Hp. unfold a in Hp.
    apply elem_of_seqZ in Hp. unfold is_u8. lia.
Defined.

(** C9. On every image of bytes and for every brightness in [0, 255], the
    vector brightness adjustment (saturating byte addition on the groups of
    32 bytes, scalar remainder loop) writes byte for byte what the scalar
    adjustment (add as [int], clamp to [0, 255]) writes. *)
Theorem adjust_brightness_simd_refines_scalar (image : list Z)
    (size brightness : Z) :
  Forall is_u8 image -> 0 <= size <= Z.of_nat (length image) ->
  0 <= brightness <= 255 ->
  adjust_brightness_simd image size brightness
  = adjust_brightness_scalar image size brightness.
Proof.
  intros Hval Hsz Hb.
  rewrite adjust_brightness_simd_spec, adjust_brightness_scalar_spec by easy.
  reflexivity.
Qed.

Lemma adjust_brightness_simd_refines_scalar_witness :
  adjust_brightness_simd (seqZ 190 66) 66 50
  = adjust_brightness_scalar (seqZ 190 66) 66 50.
Proof.
  apply adjust_brightness_simd_refines_scalar.
  - apply Forall_forall. intros p Hp.
    apply elem_of_seqZ in Hp. unfold is_u8. lia.
  - rewrite length_seqZ. lia.
  - lia.
Defined.

(** Outside [0, 255] the two paths part: the vector path adds the low byte
    of the brightness, the scalar path the [int]. *)
Example adjust_brightness_negative :
  adjust_brightness_simd (replicate 33 100) 33 (-10)
  = replicate 32 255 ++ [90]
  /\ adjust_brightness_scalar (replicate 33 100) 33 (-10) = replicate 33 90.
Proof. split; vm_compute; reflexivity. Qed.

(** ** Clamping (C3) *)

(** The scalar and the vector clamp compute every lane the same way. *)
Lemma clamp_lane (v : Z) :
  (let m := if F32.ltb v (F32.of_Z 30) then v else F32.of_Z 30 in
   if F32.gtb m (F32.of_Z 5) then m else F32.of_Z 5)
  = std_maxf (F32.of_Z 5) (std_minf (F32.of_Z 30) v).
Proof. reflexivity. Qed.

(** C3, as stated: the clamped array would keep the 35. *)
Lemma clamp_scenario_claimed_output_wrong :
  scalar_clamp main_data1 (replicate 8 F32.zero)
    <> (F32.of_Z <$> [5; 10; 15; 20; 25; 30; 35; 30])
  /\ simd_clamp (_mm256_load_ps main_data1) (replicate 8 F32.zero)
    <> (F32.of_Z <$> [5; 10; 15; 20; 25; 30; 35; 30]).
Proof. split; vm_compute; discriminate. Qed.

(** C3, amended. Clamping [5,10,15,20,25,30,35,40] to [5, 30] yields
    [5,10,15,20,25,30,30,30] (the 35 is clamped to 30 as well), by the scalar
    and by the vector path, whatever the result buffers of eight floats held
    before. *)
Theorem clamp_scenario (result_scalar result_simd : list Z) :
  length result_scalar = 8%nat -> length result_simd = 8%nat ->
  scalar_clamp main_data1 result_scalar
    = (F32.of_Z <$> [5; 10; 15; 20; 25; 30; 30; 30])
  /\ simd_clamp (_mm256_load_ps main_data1) result_simd
    = scalar_clamp main_data1 result_scalar.
Proof.
  intros H1 H2.
  do 9 (destruct result_scalar as [|? result_scalar]; try discriminate H1).
  do 9 (destruct result_simd as [|? result_simd]; try discriminate H2).
  split; vm_compute; reflexivity.
Qed.

Lemma clamp_scenario_witness :
  scalar_clamp main_data1 (replicate 8 F32.zero)
    = (F32.of_Z <$> [5; 10; 15; 20; 25; 30; 30; 30])
  /\ simd_clamp (_mm256_load_ps main_data1) (replicate 8 F32.zero)
    = scalar_clamp main_data1 (replicate 8 F32.zero).
Proof. apply clamp_scenario; reflexivity. Defined.

(** ** The single dot product (C5) *)

(** The literals of [main] are the floats nearest to the decimals. *)
Lemma main_vectors_literals :
  F32.nearest f32_0_5 5 10 = true /\ F32.nearest f32_m0_3 (-3) 10 = true /\
  F32.nearest f32_0_8 8 10 = true /\ F32.nearest f32_0_2 2 10 = true /\
  F32.nearest f32_0_7 7 10 = true /\ F32.nearest f32_m0_4 (-4) 10 = true.
Proof. repeat split; vm_compute; reflexivity. Qed.

(** C5. The dot product of (0.5, -0.3, 0.8) and (0.2, 0.7, -0.4) is -0.43
    within 1e-7, by [Vec3::dot] and by the vector path with two horizontal
    additions; the two paths return the same float. *)
Theorem dot_scenario :
  F32.within (Vec3.dot main_v1 main_v2) (-43) 100 1 10000000 = true
  /\ F32.within (simdDotProductSingle main_v1 main_v2) (-43) 100 1 10000000
     = true
  /\ simdDotProductSingle main_v1 main_v2 = Vec3.dot main_v1 main_v2.
Proof. repeat split; vm_compute; reflexivity. Qed.

(** A compiler may contract [x * other.x + y * other.y + z * other.z] into
    fused multiply-adds; the scalar result stays within the same bound. *)
Example dot_scenario_contracted :
  F32.within
    (F32.fma (Vec3.z main_v1) (Vec3.z main_v2)
       (F32.fma (Vec3.y main_v1) (Vec3.y main_v2)
          (F32.mul (Vec3.x main_v1) (Vec3.x main_v2))))
    (-43) 100 1 10000000 = true.
Proof. vm_compute. reflexivity. Qed.

(** ** Masked load, masked store and blend (C10, C4) *)

Lemma lookup_total_of_lookup (l : list Z) (i : nat) (v : Z) :
  l !! i = Some v -> l !!! i = v.
Proof. apply list_lookup_total_correct. Qed.

Lemma maskload_lookup (mem mask : list Z) (i : nat) :
  _mm256_maskload_ps mem mask !! i
  = (fun m => if lane_selected m then mem !!! i else 0) <$> mask !! i.
Proof. unfold _mm256_maskload_ps. apply list_lookup_imap. Qed.

Lemma maskstore_lookup (mem mask a : list Z) (i : nat) :
  _mm256_maskstore_ps mem mask a !! i
  = (fun old => if bool_decide (i < 8)%nat && lane_selected (mask !!! i)
                then a !!! i else old) <$> mem !! i.
Proof. unfold _mm256_maskstore_ps. apply list_lookup_imap. Qed.

Lemma blendv_lookup (a b mask : list Z) (i : nat) (x y m : Z) :
  a !! i = Some x -> b !! i = Some y -> mask !! i = Some m ->
  _mm256_blendv_ps a b mask !! i = Some (if lane_selected m then y else x).
Proof.
  intros Ha Hb Hm. unfold _mm256_blendv_ps.
  rewrite lookup_zip_with, lookup_zip_with, Ha, Hb, Hm. reflexivity.
Qed.

Lemma cmp_gt_lookup (a b : list Z) (i : nat) (x y : Z) :
  a !! i = Some x -> b !! i = Some y ->
  _mm256_cmp_ps_GT_OQ a b !! i = Some (if F32.gtb x y then all_ones else 0).
Proof.
  intros Ha Hb. unfold _mm256_cmp_ps_GT_OQ.
  rewrite lookup_zip_with, Ha, Hb. reflexivity.
Qed.

(** C10. For every source array and every mask, lane [i] of a masked load is
    the source element [i] where the mask lane is set and exactly 0.0 (the
    pattern of +0.0) where it is not. *)
Theorem maskload_selects_or_zeroes (src mask : list Z) (i : nat) (m : Z) :
  mask !! i = Some m ->
  _mm256_maskload_ps src mask !! i
  = Some (if lane_selected m then src !!! i else F32.zero)
  /\ F32.decode F32.zero = S754_zero false.
Proof.
  intros Hm. split; [|reflexivity].
  rewrite maskload_lookup, Hm. reflexivity.
Qed.

Lemma maskload_selects_or_zeroes_witness :
  _mm256_maskload_ps (F32.of_Z <$> [1; 2; 3; 4; 5; 6; 7; 8])
      (_mm256_set_epi32 0 (-1) 0 (-1) 0 (-1) 0 (-1)) !! 1%nat
  = Some (if lane_selected 0
          then (F32.of_Z <$> [1; 2; 3; 4; 5; 6; 7; 8]) !!! 1%nat
          else F32.zero)
  /\ F32.decode F32.zero = S754_zero false.
Proof. apply maskload_selects_or_zeroes. reflexivity. Defined.

(** The masked load of [main]: the even lanes of [aligned_data], zeros in
    the odd lanes. *)
Example masked_load_demo_lanes (d0 d1 d2 d3 d4 d5 d6 d7 : Z) :
  masked_load_demo [d0; d1; d2; d3; d4; d5; d6; d7]
  = [d0; F32.zero; d2; F32.zero; d4; F32.zero; d6; F32.zero].
Proof. reflexivity. Qed.

(** The filter and the complex filter put +0.0 in the lanes their predicate
    rejects: the [else] value their scalar versions assign. *)
Lemma simd_complex_lanes (x1 x2 : Z) :
  (let pos := if F32.gtb x2 F32.zero then all_ones else 0 in
   let gt := if F32.gtb x2 x1 then all_ones else 0 in
   if lane_selected (Z.land pos gt) then x2 else F32.zero)
  = if F32.gtb x2 (F32.of_Z 0) && F32.gtb x2 x1 then x2 else F32.zero.
Proof.
  change (F32.of_Z 0) with F32.zero. cbv zeta.
  destruct (F32.gtb x2 F32.zero), (F32.gtb x2 x1); reflexivity.
Qed.

Lemma simd_complex_spec (vector1 vector2 result_simd : list Z) (i : nat)
    (x1 x2 : Z) :
  length vector1 = 8%nat -> length vector2 = 8%nat ->
  length result_simd = 8%nat ->
  vector1 !! i = Some x1 -> vector2 !! i = Some x2 ->
  simd_complex vector1 vector2 result_simd !! i
  = Some (if F32.gtb x2 (F32.of_Z 0) && F32.gtb x2 x1 then x2 else F32.zero).
Proof.
  intros H1 H2 H3 Hx1 Hx2.
  assert (Hi : (i < 8)%nat) by (rewrite <- H1; eapply lookup_lt_Some; eauto).
  assert (Hz : _mm256_setzero_ps !! i = Some F32.zero)
    by (apply lookup_replicate_2; lia).
  unfold simd_complex, _mm256_store_ps, storeu. simpl take. simpl app at 1.
  rewrite lookup_app_l.
  - rewrite (blendv_lookup _ _ _ i F32.zero x2
               (Z.land (if F32.gtb x2 F32.zero then all_ones else 0)
                       (if F32.gtb x2 x1 then all_ones else 0)));
      [|easy|easy|].
    + f_equal. apply simd_complex_lanes.
    + unfold _mm256_and_ps. rewrite lookup_zip_with.
      rewrite (cmp_gt_lookup _ _ i x2 F32.zero Hx2 Hz).
      rewrite (cmp_gt_lookup _ _ i x2 x1 Hx2 Hx1).
      reflexivity.
  - unfold _mm256_blendv_ps, _mm256_and_ps, _mm256_cmp_ps_GT_OQ,
      _mm256_setzero_ps.
    rewrite !length_zip_with, length_replicate. lia.
Qed.

(** C4. A lane the mask does not select keeps what it held: a masked store
    leaves the memory of the lane as it was, and a blend returns, in that
    lane, its first operand bit for bit (the previous contents when the
    kernel passes them).  The complex filter passes the zero vector as the
    first operand of its blend, so its rejected lanes hold 0.0 by the
    kernel's choice. *)
Theorem masked_out_lane_keeps_contents (mem a prev new mask : list Z)
    (i : nat) (m old : Z) :
  mask !! i = Some m -> lane_selected m = false ->
  prev !! i = Some old -> is_Some (new !! i) ->
  _mm256_maskstore_ps mem mask a !! i = mem !! i
  /\ _mm256_blendv_ps prev new mask !! i = Some old
  /\ (forall vector1 vector2 result_simd x1 x2,
        length vector1 = 8%nat -> length vector2 = 8%nat ->
        length result_simd = 8%nat ->
        vector1 !! i = Some x1 -> vector2 !! i = Some x2 ->
        (F32.gtb x2 (F32.of_Z 0) && F32.gtb x2 x1) = false ->
        simd_complex vector1 vector2 result_simd !! i
        = _mm256_setzero_ps !! i).
Proof.
  intros Hm Hsel Hold [y Hnew]. repeat split.
  - rewrite maskstore_lookup, (lookup_total_of_lookup _ _ _ Hm), Hsel.
    rewrite andb_false_r. now destruct (mem !! i).
  - rewrite (blendv_lookup _ _ _ _ _ _ _ Hold Hnew Hm), Hsel. reflexivity.
  - intros v1 v2 buf x1 x2 H1 H2 H3 Hx1 Hx2 Hpred.
    rewrite (simd_complex_spec _ _ _ _ _ _ H1 H2 H3 Hx1 Hx2), Hpred.
    symmetry. apply lookup_replicate_2.
    rewrite <- H1. eapply lookup_lt_Some; eauto.
Qed.

Lemma masked_out_lane_keeps_contents_witness :
  let mem := F32.of_Z <$> [1; 2; 3; 4; 5; 6; 7; 8] in
  let mask2 := _mm256_set_epi32 (-1) 0 (-1) 0 (-1) 0 (-1) 0 in
  _mm256_maskstore_ps mem mask2 test_vec !! 2%nat = mem !! 2%nat
  /\ _mm256_blendv_ps mem test_vec mask2 !! 2%nat = Some (F32.of_Z 3)
  /\ (forall vector1 vector2 result_simd x1 x2,
        length vector1 = 8%nat -> length vector2 = 8%nat ->
        length result_simd = 8%nat ->
        vector1 !! 2%nat = Some x1 -> vector2 !! 2%nat = Some x2 ->
        (F32.gtb x2 (F32.of_Z 0) && F32.gtb x2 x1) = false ->
        simd_complex vector1 vector2 result_simd !! 2%nat
        = _mm256_setzero_ps !! 2%nat).
Proof.
  intros mem mask2.
  apply (masked_out_lane_keeps_contents mem test_vec mem test_vec mask2
           2%nat 0 (F32.of_Z 3)).
  - reflexivity.
  - reflexivity.
  - reflexivity.
  - exists (F32.of_Z 6). reflexivity.
Defined.

(** The masked store of [main]: the buffer is zeroed, then the odd lanes
    receive [test_vec]. *)
Example masked_store_demo_lanes (d0 d1 d2 d3 d4 d5 d6 d7 : Z) :
  masked_store_demo [d0; d1; d2; d3; d4; d5; d6; d7]
  = F32.of_Z <$> [0; 4; 0; 8; 0; 12; 0; 16].
Proof. reflexivity. Qed.

(** ** The large dot product (C2, C6) *)

Lemma for_range_S {St : Type} (body : Z -> St -> St) (n : nat) (s : St) :
  for_range 0 (Z.of_nat (S n)) body s
  = body (Z.of_nat n) (for_range 0 (Z.of_nat n) body s).
Proof.
  rewrite !for_range_foldl, !Z.sub_0_r, seqZ_S, foldl_snoc. reflexivity.
Qed.

Lemma length_loadu_ps (a : list Z) (i : Z) :
  0 <= i -> i + 8 <= Z.of_nat (length a) ->
  length (_mm256_loadu_ps a i) = 8%nat.
Proof.
  intros. unfold _mm256_loadu_ps, loadu.
  rewrite length_take, length_drop. lia.
Qed.

Section large_dot.
Variables vectors1 vectors2 : Vec3Array.t.
Hypothesis sizes : Vec3Array.same_size vectors1 vectors2.

Let size : Z := Z.of_nat (length (Vec3Array.x vectors1)).
Let blocks : Z := size / 8.

Lemma length_simdDotProductSoA8 (offset : Z) :
  0 <= offset -> offset + 8 <= size ->
  length (simdDotProductSoA8 vectors1 vectors2 offset) = 8%nat.
Proof.
  destruct sizes as (Hy1 & Hz1 & Hx2 & Hy2 & Hz2). intros H0 H8.
  unfold simdDotProductSoA8, _mm256_fmadd_ps, _mm256_mul_ps.
  rewrite !length_zip_with, !length_loadu_ps; unfold size in *; lia.
Qed.

Lemma dot_accumulator_S (n : nat) :
  dot_accumulator vectors1 vectors2 (Z.of_nat (S n))
  = _mm256_add_ps (dot_accumulator vectors1 vectors2 (Z.of_nat n))
      (simdDotProductSoA8 vectors1 vectors2 (Z.of_nat n * 8)).
Proof. unfold dot_accumulator. now rewrite for_range_S. Qed.

Lemma length_dot_accumulator (n : nat) :
  Z.of_nat n <= blocks ->
  length (dot_accumulator vectors1 vectors2 (Z.of_nat n)) = 8%nat.
Proof.
  pose proof (Z.mul_div_le size 8).
  induction n as [|n IH]; intros Hn; [reflexivity|].
  rewrite dot_accumulator_S. unfold _mm256_add_ps.
  rewrite length_zip_with, IH, length_simdDotProductSoA8;
    unfold blocks in *; lia.
Qed.

(** Lane [j] of the accumulator after [n] blocks is the running sum of
    lane [j] of the blocks, each added once, in block order. *)
Lemma dot_accumulator_lane (n : nat) (j : nat) :
  Z.of_nat n <= blocks -> (j < 8)%nat ->
  dot_accumulator vectors1 vectors2 (Z.of_nat n) !! j
  = Some (foldl F32.add F32.zero
            ((fun b => simdDotProductSoA8 vectors1 vectors2 (b * 8) !!! j)
               <$> seqZ 0 (Z.of_nat n))).
Proof.
  pose proof (Z.mul_div_le size 8).
  induction n as [|n IH]; intros Hn Hj.
  - simpl. apply lookup_replicate_2. lia.
  - rewrite seqZ_S, fmap_app, foldl_app.
    rewrite dot_accumulator_S. unfold _mm256_add_ps.
    rewrite lookup_zip_with, IH by lia.
    destruct (lookup_lt_is_Some_2
                (simdDotProductSoA8 vectors1 vectors2 (Z.of_nat n * 8)) j)
      as [d Hd].
    { rewrite length_simdDotProductSoA8; unfold blocks in *; lia. }
    rewrite Hd, <- (list_lookup_total_correct _ _ _ Hd). reflexivity.
Qed.

Lemma dot_horizontal_sum_lanes (a0 a1 a2 a3 a4 a5 a6 a7 : Z) :
  dot_horizontal_sum [a0; a1; a2; a3; a4; a5; a6; a7]
  = F32.add (F32.add (F32.add (F32.add (F32.add (F32.add (F32.add
      (F32.add F32.zero a0) a1) a2) a3) a4) a5) a6) a7.
Proof. reflexivity. Qed.
End large_dot.

(** C2, as stated: on [tie_vectors1] and [tie_vectors2] (one block, no
    remainder) the function does not return the pairwise sum of the lanes of
    its accumulator. *)
Lemma dot_collapse_not_pairwise :
  simdDotProductLarge tie_vectors1 tie_vectors2
  <> dot_remainder tie_vectors1 tie_vectors2 1 8
       (pairwise_sum (dot_accumulator tie_vectors1 tie_vectors2 1)).
Proof. vm_compute. discriminate. Qed.

Example dot_collapse_values :
  dot_accumulator tie_vectors1 tie_vectors2 1
    = (F32.of_Z <$> [16777216; 1; 1; 1; 1; 1; 1; 1])
  /\ simdDotProductLarge tie_vectors1 tie_vectors2 = F32.of_Z 16777216
  /\ pairwise_sum (dot_accumulator tie_vectors1 tie_vectors2 1)
     = F32.of_Z 16777222.
Proof. repeat split; vm_compute; reflexivity. Qed.

(** C2, amended. After the main loop the eight lanes of the final accumulator
    are collapsed to one scalar by sequential summation, lane 0 to lane 7,
    starting from 0.0; the scalar dot products of the remaining vectors are
    added after that collapse, in index order. *)
Theorem dot_collapse_sequential (vectors1 vectors2 : Vec3Array.t) :
  Vec3Array.same_size vectors1 vectors2 ->
  let size := Z.of_nat (length (Vec3Array.x vectors1)) in
  let blocks := size / 8 in
  exists a0 a1 a2 a3 a4 a5 a6 a7 : Z,
    dot_accumulator vectors1 vectors2 blocks
      = [a0; a1; a2; a3; a4; a5; a6; a7]
    /\ simdDotProductLarge vectors1 vectors2
       = foldl (fun total i =>
                  F32.add total (Vec3.dot (Vec3Array.at_ vectors1 i)
                                          (Vec3Array.at_ vectors2 i)))
           (F32.add (F32.add (F32.add (F32.add (F32.add (F32.add (F32.add
              (F32.add F32.zero a0) a1) a2) a3) a4) a5) a6) a7)
           (seqZ (blocks * 8) (size mod 8)).
Proof.
  intros Hsizes size blocks.
  assert (Hb : 0 <= blocks) by (apply Z.div_pos; unfold size; lia).
  pose proof (length_dot_accumulator vectors1 vectors2 Hsizes
                (Z.to_nat blocks)) as Hlen.
  rewrite Z2Nat.id in Hlen by exact Hb.
  specialize (Hlen (Z.le_refl _)).
  destruct (dot_accumulator vectors1 vectors2 blocks)
    as [|a0 [|a1 [|a2 [|a3 [|a4 [|a5 [|a6 [|a7 [|? ?]]]]]]]]] eqn:Hacc;
    try discriminate Hlen.
  exists a0, a1, a2, a3, a4, a5, a6, a7. split; [reflexivity|].
  unfold simdDotProductLarge. fold size. fold blocks. rewrite Hacc.
  rewrite dot_horizontal_sum_lanes. unfold dot_remainder.
  rewrite for_range_foldl. do 2 f_equal.
  rewrite (Z.div_mod size 8) at 1 by lia. fold blocks. lia.
Qed.

Lemma dot_collapse_sequential_witness :
  exists a0 a1 a2 a3 a4 a5 a6 a7 : Z,
    dot_accumulator two_block_vectors1 two_block_vectors2 2
      = [a0; a1; a2; a3; a4; a5; a6; a7]
    /\ simdDotProductLarge two_block_vectors1 two_block_vectors2
       = foldl (fun total i =>
                  F32.add total
                    (Vec3.dot (Vec3Array.at_ two_block_vectors1 i)
                              (Vec3Array.at_ two_block_vectors2 i)))
           (F32.add (F32.add (F32.add (F32.add (F32.add (F32.add (F32.add
              (F32.add F32.zero a0) a1) a2) a3) a4) a5) a6) a7)
           (seqZ (2 * 8) 0).
Proof.
  apply (dot_collapse_sequential two_block_vectors1 two_block_vectors2).
  repeat split; reflexivity.
Defined.

(** C6. The accumulator starts as the zero vector; each of the [blocks]
    iterations only adds one block's eight dot products to it lane by lane,
    so that after the loop lane [j] holds the sum over the blocks of lane
    [j], no lane having met another; the function then reduces the eight
    lanes to a scalar once, lane 0 to lane 7 from 0.0, after the last
    iteration, and the remainder loop continues from that scalar: the
    result is the remainder loop over the sum of the eight per-lane sums. *)
Theorem dot_accumulator_reduced_once (vectors1 vectors2 : Vec3Array.t) :
  Vec3Array.same_size vectors1 vectors2 ->
  let size := Z.of_nat (length (Vec3Array.x vectors1)) in
  let blocks := size / 8 in
  let lane_sum := fun (k : Z) (j : nat) =>
    foldl F32.add F32.zero
      ((fun b => simdDotProductSoA8 vectors1 vectors2 (b * 8) !!! j)
         <$> seqZ 0 k) in
  dot_accumulator vectors1 vectors2 0 = _mm256_setzero_ps
  /\ (forall k, 0 <= k < blocks ->
        dot_accumulator vectors1 vectors2 (k + 1)
        = _mm256_add_ps (dot_accumulator vectors1 vectors2 k)
            (simdDotProductSoA8 vectors1 vectors2 (k * 8)))
  /\ (forall k, 0 <= k <= blocks ->
        dot_accumulator vectors1 vectors2 k = lane_sum k <$> seq 0 8)
  /\ simdDotProductLarge vectors1 vectors2
     = dot_remainder vectors1 vectors2 blocks size
         (foldl F32.add F32.zero (lane_sum blocks <$> seq 0 8)).
Proof.
  intros Hsizes size blocks lane_sum.
  assert (Hb : 0 <= blocks) by (apply Z.div_pos; unfold size; lia).
  assert (Hacc : forall k, 0 <= k <= blocks ->
            dot_accumulator vectors1 vectors2 k = lane_sum k <$> seq 0 8).
  { intros k Hk. rewrite <- (Z2Nat.id k) by lia.
    apply (list_eq_same_length _ _ 8).
    - rewrite length_fmap, length_seq. reflexivity.
    - apply length_dot_accumulator; [assumption|].
      fold size. fold blocks. lia.
    - intros j a b Hj Ha Hb'.
      rewrite dot_accumulator_lane in Ha;
        [|assumption|fold size; fold blocks; lia|assumption].
      rewrite list_lookup_fmap, lookup_seq_lt in Hb' by assumption.
      cbn [fmap option_fmap option_map Nat.add] in Hb'.
      unfold lane_sum in Hb'. congruence. }
  split; [reflexivity|]. split; [|split; [exact Hacc|]].
  - intros k Hk.
    replace (k + 1) with (Z.of_nat (S (Z.to_nat k))) by lia.
    rewrite dot_accumulator_S, Z2Nat.id by lia. reflexivity.
  - unfold simdDotProductLarge. fold size. fold blocks.
    rewrite (Hacc blocks) by lia. clearbody lane_sum.
    change (lane_sum blocks <$> seq 0 8)
      with [lane_sum blocks 0%nat; lane_sum blocks 1%nat;
            lane_sum blocks 2%nat; lane_sum blocks 3%nat;
            lane_sum blocks 4%nat; lane_sum blocks 5%nat;
            lane_sum blocks 6%nat; lane_sum blocks 7%nat].
    rewrite dot_horizontal_sum_lanes. apply f_equal.
    cbn [foldl]. reflexivity.
Qed.

Lemma dot_accumulator_reduced_once_witness :
  let size := Z.of_nat (length (Vec3Array.x two_block_vectors1)) in
  let blocks := size / 8 in
  let lane_sum := fun (k : Z) (j : nat) =>
    foldl F32.add F32.zero
      ((fun b => simdDotProductSoA8 two_block_vectors1 two_block_vectors2
                   (b * 8) !!! j) <$> seqZ 0 k) in
  dot_accumulator two_block_vectors1 two_block_vectors2 0 = _mm256_setzero_ps
  /\ (forall k, 0 <= k < blocks ->
        dot_accumulator two_block_vectors1 two_block_vectors2 (k + 1)
        = _mm256_add_ps (dot_accumulator two_block_vectors1 two_block_vectors2 k)
            (simdDotProductSoA8 two_block_vectors1 two_block_vectors2 (k * 8)))
  /\ (forall k, 0 <= k <= blocks ->
        dot_accumulator two_block_vectors1 two_block_vectors2 k
        = lane_sum k <$> seq 0 8)
  /\ simdDotProductLarge two_block_vectors1 two_block_vectors2
     = dot_remainder two_block_vectors1 two_block_vectors2 blocks size
         (foldl F32.add F32.zero (lane_sum blocks <$> seq 0 8)).
Proof.
  apply (dot_accumulator_reduced_once two_block_vectors1 two_block_vectors2).
  repeat split; reflexivity.
Defined.

(** Reducing inside the loop would be observable: on the two-block operands
    the function returns 2^24, while adding the horizontal sum of each block
    to a scalar gives 2^24 + 2. *)
Example reduction_order_matters :
  simdDotProductLarge two_block_vectors1 two_block_vectors2
    = F32.of_Z 16777216
  /\ F32.add
       (F32.add F32.zero
          (dot_horizontal_sum
             (simdDotProductSoA8 two_block_vectors1 two_block_vectors2 0)))
       (dot_horizontal_sum
          (simdDotProductSoA8 two_block_vectors1 two_block_vectors2 8))
     = F32.of_Z 16777218.
Proof. split; vm_compute; reflexivity. Qed.

(** ** The benchmark harness (C8) *)

Section harness_facts.
Context {St : Type}.
Variable clock : nat -> Z.

Lemma repeat_call_spec (e : Bench.event) (f : St -> St) (n : nat)
    (m : Bench.machine St) :
  for_range 0 (Z.of_nat n) (fun _ m => (Bench.call e f m).2) m
  = Bench.mkMachine (Nat.iter n f (Bench.state m)) (Bench.reads m)
      (Bench.trace m ++ replicate n e).
Proof.
  induction n as [|n IH].
  - destruct m. simpl. now rewrite app_nil_r.
  - rewrite for_range_S, IH. unfold Bench.call. simpl.
    f_equal. rewrite <- app_assoc. f_equal.
    change (e :: replicate n e) with (replicate (S n) e).
    now rewrite replicate_S_end.
Qed.

Lemma repeat_call_run (e : Bench.event) (f : St -> St) (iterations : Z)
    (m : Bench.machine St) :
  Bench.repeat_call iterations (Bench.call e f) m
  = (tt, Bench.mkMachine
           (Nat.iter (Z.to_nat iterations) f (Bench.state m))
           (Bench.reads m)
           (Bench.trace m ++ replicate (Z.to_nat iterations) e)).
Proof.
  unfold Bench.repeat_call. f_equal.
  rewrite <- repeat_call_spec. unfold for_range.
  rewrite !Z.sub_0_r, Nat2Z.id.
  destruct (Z.to_nat iterations) eqn:Hn; [reflexivity|].
  rewrite <- Hn, Z2Nat.id by lia. reflexivity.
Qed.

(** One run of the harness, step by step. *)
Lemma benchmark_comparison_run (label : list Byte.byte)
    (scalar_func simd_func : St -> St) (iterations : Z)
    (m : Bench.machine St) :
  let n := Z.to_nat iterations in
  let k := Bench.reads m in
  let scalar_duration := Bench.duration_micros (clock k) (clock (S k)) in
  let simd_duration :=
    Bench.duration_micros (clock (S (S k))) (clock (S (S (S k)))) in
  Bench.benchmark_comparison clock label scalar_func simd_func iterations m
  = (Bench.mkReport label scalar_duration simd_duration
       (F64.div (F64.of_Z scalar_duration) (F64.of_Z simd_duration)),
     Bench.mkMachine
       (Nat.iter n simd_func
          (Nat.iter n scalar_func (simd_func (scalar_func (Bench.state m)))))
       (S (S (S (S k))))
       ((((((((Bench.trace m ++ [Bench.CallScalar]) ++ [Bench.CallSimd])
               ++ [Bench.ClockNow])
              ++ replicate n Bench.CallScalar)
             ++ [Bench.ClockNow]) ++ [Bench.ClockNow])
           ++ replicate n Bench.CallSimd) ++ [Bench.ClockNow])).
Proof.
  intros n k scalar_duration simd_duration.
  unfold Bench.benchmark_comparison, Bench.bind.
  unfold Bench.call at 1 2. unfold Bench.now at 1.
  rewrite repeat_call_run. unfold Bench.now at 1 2.
  rewrite repeat_call_run. unfold Bench.now, Bench.ret.
  reflexivity.
Qed.
End harness_facts.

(** C8. [benchmark_comparison] calls the scalar callable once and the vector
    callable once to warm up, reads the clock, makes [iterations] calls of
    the scalar callable, reads the clock twice, makes [iterations] calls of
    the vector callable and reads the clock; it reports the two differences
    of readings in whole microseconds and their quotient as the speedup.
    The state the callables work on is what their calls made of it: the
    harness neither changes nor inspects it.  (A negative [iterations] makes
    no timed call: [Z.to_nat] is 0 there.) *)
Theorem benchmark_comparison_calls {St : Type} (clock : nat -> Z)
    (label : list Byte.byte) (scalar_func simd_func : St -> St)
    (iterations : Z) (m : Bench.machine St) :
  let n := Z.to_nat iterations in
  let run :=
    Bench.benchmark_comparison clock label scalar_func simd_func iterations m in
  let k := Bench.reads m in
  Bench.trace run.2
    = Bench.trace m
      ++ [Bench.CallScalar; Bench.CallSimd; Bench.ClockNow]
      ++ replicate n Bench.CallScalar
      ++ [Bench.ClockNow; Bench.ClockNow]
      ++ replicate n Bench.CallSimd
      ++ [Bench.ClockNow]
  /\ Bench.state run.2
     = Nat.iter n simd_func
         (Nat.iter n scalar_func (simd_func (scalar_func (Bench.state m))))
  /\ Bench.scalar_micros run.1 = Z.quot (clock (S k) - clock k) 1000
  /\ Bench.simd_micros run.1
     = Z.quot (clock (S (S (S k))) - clock (S (S k))) 1000
  /\ Bench.speedup run.1
     = F64.div (F64.of_Z (Bench.scalar_micros run.1))
               (F64.of_Z (Bench.simd_micros run.1))
  /\ Bench.label run.1 = label.
Proof.
  intros n run k. subst run n k. rewrite benchmark_comparison_run.
  cbn [fst snd Bench.state Bench.reads Bench.trace Bench.scalar_micros
       Bench.simd_micros Bench.speedup Bench.label].
  repeat split.
  rewrite <- !app_assoc. reflexivity.
Qed.

(** ** Aligned allocation (C7) *)

Lemma bump_memalign_contract : Alloc.posix_contract Alloc.bump_memalign.
Proof.
  split.
  - intros h alignment size ptr h'. unfold Alloc.bump_memalign.
    destruct (Alloc.posix_alignment alignment) eqn:Ha; simpl;
      [|discriminate].
    destruct (_ <=? _); [|discriminate].
    intros [= <- _]. apply Z_mod_mult.
  - intros h alignment size Ha. unfold Alloc.bump_memalign.
    rewrite Ha. reflexivity.
Qed.

(** C7. With an allocator that meets the contract of [posix_memalign],
    [aligned_alloc] has two outcomes and no third.  When the allocator
    reports success it returns the very pointer the allocator stored, and
    the address of that pointer is a multiple of the requested alignment;
    when the allocator reports a failure it throws [std::bad_alloc], as it
    does for an alignment that is not a power of two.  It makes the one
    request, for [size * sizeof(T)] bytes at the given alignment, and the
    heap afterwards is the heap that request left. *)
Theorem aligned_alloc_outcomes {Heap : Type}
    (posix_memalign : Heap -> Z -> Z -> Z * Z * Heap) (sizeof_T : Z)
    (h : Heap) (size alignment : Z) :
  Alloc.posix_contract posix_memalign ->
  let call := posix_memalign h alignment (Alloc.request_bytes sizeof_T size) in
  let rc := call.1.1 in
  let stored := call.1.2 in
  let result := Alloc.aligned_alloc posix_memalign sizeof_T h size alignment in
  ((rc = 0 /\ result.1 = Alloc.Returned stored /\ stored mod alignment = 0)
   \/ (rc <> 0 /\ result.1 = Alloc.Thrown_bad_alloc))
  /\ result.2 = call.2
  /\ (Alloc.power_of_two alignment = false ->
      result.1 = Alloc.Thrown_bad_alloc).
Proof.
  intros [Haligned Heinval] call rc stored result.
  subst rc stored result call. unfold Alloc.aligned_alloc.
  specialize (Haligned h alignment (Alloc.request_bytes sizeof_T size)).
  specialize (Heinval h alignment (Alloc.request_bytes sizeof_T size)).
  destruct (posix_memalign h alignment (Alloc.request_bytes sizeof_T size))
    as [[rc ptr] h'].
  cbn [fst snd] in *. split; [|split].
  - destruct (Z.eqb_spec rc 0) as [->|Hrc]; cbn [negb fst].
    + left. split; [reflexivity|]. split; [reflexivity|].
      exact (Haligned ptr h' eq_refl).
    + right. split; [exact Hrc|reflexivity].
  - destruct (negb (rc =? 0)); reflexivity.
  - intros Hpow. rewrite Heinval
      by (unfold Alloc.posix_alignment; rewrite Hpow; reflexivity).
    reflexivity.
Qed.

Lemma aligned_alloc_outcomes_witness :
  let call := Alloc.bump_memalign 5 32 (Alloc.request_bytes 4 8) in
  let rc := call.1.1 in
  let stored := call.1.2 in
  let result := Alloc.aligned_alloc Alloc.bump_memalign 4 5 8 32 in
  ((rc = 0 /\ result.1 = Alloc.Returned stored /\ stored mod 32 = 0)
   \/ (rc <> 0 /\ result.1 = Alloc.Thrown_bad_alloc))
  /\ result.2 = call.2
  /\ (Alloc.power_of_two 32 = false -> result.1 = Alloc.Thrown_bad_alloc).
Proof.
  apply (aligned_alloc_outcomes Alloc.bump_memalign 4 5 8 32).
  exact bump_memalign_contract.
Defined.

(** On the reference allocator: eight floats at the default alignment, an
    alignment that is not a power of two, and a request beyond the heap. *)
Example aligned_alloc_examples :
  (Alloc.aligned_alloc Alloc.bump_memalign 4 5 8 32).1 = Alloc.Returned 32
  /\ (Alloc.aligned_alloc Alloc.bump_memalign 4 5 8 24).1
     = Alloc.Thrown_bad_alloc
  /\ (Alloc.aligned_alloc Alloc.bump_memalign 4 5 1048576 32).1
     = Alloc.Thrown_bad_alloc.
Proof. repeat split. Qed.

(* ===================================================================== *)
(** * Further properties of the kernels and of their callers *)

(** ** Conditional kernels on every input *)

Lemma of_Z_0 : F32.of_Z 0 = F32.zero.
Proof. reflexivity. Qed.

Lemma land_all_ones (w : Z) : is_u32 w -> Z.land w all_ones = w.
Proof.
  intros Hw. change all_ones with (Z.ones 32).
  rewrite Z.land_ones by lia. apply Z.mod_small. exact Hw.
Qed.

Ltac eight_lanes l H :=
  do 8 (destruct l as [|? l]; [discriminate H|]);
  destruct l; [|discriminate H].

(** X3. On every eight 32-bit floats the vector filter, the input ANDed
    with its own greater-than-zero mask, stores what the scalar
    [if (data2[i] > 0)] loop stores: the lane itself where it is positive,
    +0.0 elsewhere, also for -0.0 and NaN lanes. *)
Theorem simd_filter_refines_scalar (data2 result_scalar result_simd : list Z) :
  length data2 = 8%nat -> Forall is_u32 data2 ->
  length result_scalar = 8%nat -> length result_simd = 8%nat ->
  simd_filter (_mm256_load_ps data2) result_simd
  = scalar_filter data2 result_scalar.
Proof.
  intros Hd Hu Hs Hv.
  eight_lanes data2 Hd. eight_lanes result_scalar Hs.
  eight_lanes result_simd Hv.
  repeat match goal with
         | H : Forall _ (_ :: _) |- _ => apply Forall_cons in H as [? H]
         end.
  cbv -[F32.gtb Z.land all_ones].
  repeat match goal with
         | |- context [F32.gtb ?a ?b] => destruct (F32.gtb a b)
         end;
    rewrite ?land_all_ones, ?Z.land_0_r by assumption; reflexivity.
Qed.

Lemma simd_filter_refines_scalar_witness :
  simd_filter (_mm256_load_ps main_data2) (replicate 8 F32.zero)
  = scalar_filter main_data2 (replicate 8 (F32.of_Z 1)).
Proof.
  apply (simd_filter_refines_scalar main_data2 (replicate 8 (F32.of_Z 1))
           (replicate 8 F32.zero)); [reflexivity| |reflexivity|reflexivity].
  repeat (apply Forall_cons; split;
          [vm_compute; split; [discriminate|reflexivity]|]).
  apply Forall_nil. exact I.
Defined.

Lemma for_loop_ext {St : Type} (body1 body2 : Z -> St -> St) (stop : Z)
    (fuel : nat) :
  (forall i s, body1 i s = body2 i s) ->
  forall i s, for_loop fuel i stop body1 s = for_loop fuel i stop body2 s.
Proof.
  intros Hext. induction fuel as [|fuel IH]; intros i s; simpl; [easy|].
  destruct (i <? stop); [|easy]. now rewrite Hext, IH.
Qed.

Lemma scalar_complex_as_select (data1 data2 result_scalar : list Z) :
  scalar_complex data1 data2 result_scalar
  = for_range 0 8
      (fun i result_scalar =>
         <[Z.to_nat i :=
             if F32.gtb (data2 !!! Z.to_nat i) (F32.of_Z 0)
                && F32.gtb (data2 !!! Z.to_nat i) (data1 !!! Z.to_nat i)
             then data2 !!! Z.to_nat i else F32.zero]> result_scalar)
      result_scalar.
Proof.
  unfold scalar_complex, for_range. apply for_loop_ext.
  intros i s. now destruct (_ && _).
Qed.

(** X4. On every two groups of eight floats the vector selection, a blend
    of zero and [vector2] under the AND of the two comparison masks, stores
    what the scalar loop with [data2[i] > 0 && data2[i] > data1[i]]
    stores. *)
Theorem simd_complex_refines_scalar
    (data1 data2 result_scalar result_simd : list Z) :
  length data1 = 8%nat -> length data2 = 8%nat ->
  length result_scalar = 8%nat -> length result_simd = 8%nat ->
  simd_complex (_mm256_load_ps data1) (_mm256_load_ps data2) result_simd
  = scalar_complex data1 data2 result_scalar.
Proof.
  intros H1 H2 Hs Hv. rewrite scalar_complex_as_select.
  eight_lanes data1 H1. eight_lanes data2 H2.
  eight_lanes result_scalar Hs. eight_lanes result_simd Hv.
  cbv -[F32.gtb Z.land all_ones lane_selected andb].
  do 7 (f_equal; [apply (simd_complex_lanes _ _)|]).
  f_equal. apply (simd_complex_lanes _ _).
Qed.

Lemma simd_complex_refines_scalar_witness :
  simd_complex (_mm256_load_ps main_data1) (_mm256_load_ps main_data2)
    (replicate 8 F32.zero)
  = scalar_complex main_data1 main_data2 (replicate 8 (F32.of_Z 1)).
Proof.
  apply (simd_complex_refines_scalar main_data1 main_data2
           (replicate 8 (F32.of_Z 1)) (replicate 8 F32.zero)); reflexivity.
Defined.

(** [a <= b] on floats, false on a NaN. *)
Lemma SFltb_leb (x y : spec_float) : SFltb x y = true -> SFleb x y = true.
Proof. unfold SFltb, SFleb. now destruct (SFcompare x y) as [[]|]. Qed.

Lemma clamp_lane_range (v : Z) :
  let r := std_maxf (F32.of_Z 5) (std_minf (F32.of_Z 30) v) in
  f32_leb (F32.of_Z 5) r = true /\ f32_leb r (F32.of_Z 30) = true.
Proof.
  unfold std_maxf, std_minf, f32_leb. cbv zeta.
  destruct (F32.ltb v (F32.of_Z 30)) eqn:Hlt.
  - destruct (F32.ltb (F32.of_Z 5) v) eqn:Hgt.
    + split; apply SFltb_leb; assumption.
    + split; reflexivity.
  - split; reflexivity.
Qed.

Lemma clamp_lane_nan (v : Z) :
  F32.decode v = S754_nan ->
  std_maxf (F32.of_Z 5) (std_minf (F32.of_Z 30) v) = F32.of_Z 30.
Proof.
  intros Hnan. unfold std_maxf, std_minf, F32.ltb. rewrite Hnan.
  reflexivity.
Qed.

Lemma scalar_clamp_lanes (data2 result_scalar : list Z) :
  length data2 = 8%nat -> length result_scalar = 8%nat ->
  scalar_clamp data2 result_scalar
  = (fun v => std_maxf (F32.of_Z 5) (std_minf (F32.of_Z 30) v)) <$> data2.
Proof.
  intros Hd Hs. eight_lanes data2 Hd. eight_lanes result_scalar Hs.
  reflexivity.
Qed.

Lemma simd_clamp_lanes (data2 result_simd : list Z) :
  length data2 = 8%nat -> length result_simd = 8%nat ->
  simd_clamp (_mm256_load_ps data2) result_simd
  = (fun v => std_maxf (F32.of_Z 5) (std_minf (F32.of_Z 30) v)) <$> data2.
Proof.
  intros Hd Hv. eight_lanes data2 Hd. eight_lanes result_simd Hv.
  reflexivity.
Qed.

(** X1. On every eight floats (NaNs, infinities and signed zeros included)
    the vector clamp, [_mm256_max_ps (_mm256_min_ps vector2 30) 5], stores
    bit for bit what the scalar clamp, [std::max(5, std::min(30, data2[i]))],
    stores: the operand order of the two intrinsics is the one that makes
    their second-operand-on-unordered rule agree with [std::min] and
    [std::max]. *)
Theorem simd_clamp_refines_scalar (data2 result_scalar result_simd : list Z) :
  length data2 = 8%nat -> length result_scalar = 8%nat ->
  length result_simd = 8%nat ->
  simd_clamp (_mm256_load_ps data2) result_simd
  = scalar_clamp data2 result_scalar.
Proof.
  intros Hd Hs Hv.
  rewrite simd_clamp_lanes, scalar_clamp_lanes by assumption. reflexivity.
Qed.

Lemma simd_clamp_refines_scalar_witness :
  simd_clamp (_mm256_load_ps main_data2) (replicate 8 F32.zero)
  = scalar_clamp main_data2 (replicate 8 (F32.of_Z 1)).
Proof.
  apply (simd_clamp_refines_scalar main_data2 (replicate 8 (F32.of_Z 1))
           (replicate 8 F32.zero)); reflexivity.
Defined.

(** X2. Whatever the input, every output of either clamp lies in [5, 30]
    (so no output is a NaN), and a NaN input comes out as 30.0, the upper
    bound. *)
Theorem clamp_output_in_range (data2 result_scalar result_simd : list Z) :
  length data2 = 8%nat -> length result_scalar = 8%nat ->
  length result_simd = 8%nat ->
  let in_range := fun r =>
    f32_leb (F32.of_Z 5) r = true /\ f32_leb r (F32.of_Z 30) = true in
  Forall in_range (scalar_clamp data2 result_scalar)
  /\ Forall in_range (simd_clamp (_mm256_load_ps data2) result_simd)
  /\ (forall (i : nat) v,
        data2 !! i = Some v -> F32.decode v = S754_nan ->
        scalar_clamp data2 result_scalar !! i = Some (F32.of_Z 30)).
Proof.
  intros Hd Hs Hv in_range.
  rewrite simd_clamp_lanes, scalar_clamp_lanes by assumption.
  split; [|split].
  1,2: apply Forall_forall; intros r Hr;
       apply list_elem_of_fmap_1 in Hr as (v & -> & _);
       exact (clamp_lane_range v).
  intros i v Hi Hnan. rewrite list_lookup_fmap, Hi.
  cbn [fmap option_fmap option_map]. now rewrite clamp_lane_nan.
Qed.

Lemma clamp_output_in_range_witness :
  let in_range := fun r =>
    f32_leb (F32.of_Z 5) r = true /\ f32_leb r (F32.of_Z 30) = true in
  Forall in_range (scalar_clamp main_data2 (replicate 8 F32.zero))
  /\ Forall in_range
       (simd_clamp (_mm256_load_ps main_data2) (replicate 8 F32.zero))
  /\ (forall (i : nat) v,
        main_data2 !! i = Some v -> F32.decode v = S754_nan ->
        scalar_clamp main_data2 (replicate 8 F32.zero) !! i
        = Some (F32.of_Z 30)).
Proof.
  apply (clamp_output_in_range main_data2 (replicate 8 F32.zero)
           (replicate 8 F32.zero)); reflexivity.
Defined.

(** ** The bit mask of a comparison *)

Lemma movemask_testbit (a : list Z) :
  forall i : nat, (i < length a)%nat ->
    Z.testbit (_mm256_movemask_ps a) (Z.of_nat i) = lane_selected (a !!! i).
Proof.
  induction a as [|lane a IH]; intros i Hi; [inversion Hi|].
  change (_mm256_movemask_ps (lane :: a))
    with (Z.b2z (lane_selected lane) + 2 * _mm256_movemask_ps a).
  rewrite Z.add_comm.
  destruct i as [|i].
  - change (Z.of_nat 0) with 0. rewrite Z.testbit_0_r. reflexivity.
  - rewrite Nat2Z.inj_succ, Z.testbit_succ_r by lia.
    apply IH. simpl in Hi. lia.
Qed.

Lemma movemask_bound (a : list Z) :
  0 <= _mm256_movemask_ps a < 2 ^ Z.of_nat (length a).
Proof.
  induction a as [|lane a IH]; simpl _mm256_movemask_ps; simpl length.
  - change (2 ^ Z.of_nat 0) with 1. lia.
  - rewrite Nat2Z.inj_succ, Z.pow_succ_r by lia.
    destruct (lane_selected lane); simpl Z.b2z; lia.
Qed.

(** X5. Bit [i] of the integer that [_mm256_movemask_ps] makes of the
    greater-than-zero mask is set exactly when lane [i] of the input is
    greater than zero, and the integer has no bit above bit 7. *)
Theorem positive_bitmask_bits (vector2 : list Z) (i : nat) (v : Z) :
  length vector2 = 8%nat -> vector2 !! i = Some v ->
  Z.testbit (positive_bitmask vector2) (Z.of_nat i) = F32.gtb v F32.zero
  /\ 0 <= positive_bitmask vector2 < 256.
Proof.
  intros Hlen Hv. unfold positive_bitmask.
  assert (Hi : (i < 8)%nat) by (rewrite <- Hlen; eapply lookup_lt_Some; eauto).
  assert (Hz : _mm256_setzero_ps !! i = Some F32.zero)
    by (apply lookup_replicate_2; lia).
  assert (Hc : length (_mm256_cmp_ps_GT_OQ vector2 _mm256_setzero_ps) = 8%nat)
    by (unfold _mm256_cmp_ps_GT_OQ;
        rewrite length_zip_with, Hlen; reflexivity).
  split.
  - rewrite movemask_testbit by lia.
    rewrite (list_lookup_total_correct _ _ _ (cmp_gt_lookup _ _ _ _ _ Hv Hz)).
    now destruct (F32.gtb v F32.zero).
  - pose proof (movemask_bound (_mm256_cmp_ps_GT_OQ vector2 _mm256_setzero_ps))
      as Hb.
    rewrite Hc in Hb. exact Hb.
Qed.

Lemma positive_bitmask_bits_witness :
  Z.testbit (positive_bitmask main_data2) (Z.of_nat 1)
  = F32.gtb (F32.of_Z 4) F32.zero
  /\ 0 <= positive_bitmask main_data2 < 256.
Proof.
  apply (positive_bitmask_bits main_data2 1 (F32.of_Z 4));
    vm_compute; reflexivity.
Defined.

(** The number [main] prints for its [data2]: bits 1, 2, 4 and 6. *)
Example positive_bitmask_main : positive_bitmask main_data2 = 86.
Proof. vm_compute. reflexivity. Qed.

(** ** Brightness at every [int] *)

Lemma adds_epu8_lanes (c : Z) (g : list Z) :
  Z.of_nat (length g) = 32 ->
  Z.of_nat (length (_mm256_adds_epu8 g (_mm256_set1_epi8 c))) = 32.
Proof.
  intros Hg. unfold _mm256_adds_epu8, _mm256_set1_epi8.
  rewrite length_zip_with, length_replicate. lia.
Qed.

Lemma set1_epi8_low_byte (b : Z) :
  _mm256_set1_epi8 (static_cast_char b)
  = _mm256_set1_epi8 (static_cast_char (b mod 256)).
Proof.
  unfold _mm256_set1_epi8. now rewrite !static_cast_char_u8, Zmod_mod.
Qed.

(** X6. What the vector brightness path computes for every [int]
    brightness: [_mm256_set1_epi8] keeps the low byte of the argument, so the
    full groups of 32 bytes get the saturating addition of [brightness mod
    256], the remaining [size mod 32] bytes get the scalar adjustment by
    [brightness] itself, and the bytes from [size] on are not touched.  A
    negative brightness therefore brightens the full groups. *)
Theorem adjust_brightness_simd_low_byte (image : list Z) (size brightness : Z) :
  Forall is_u8 image -> 0 <= size <= Z.of_nat (length image) ->
  let full := size - size mod 32 in
  adjust_brightness_simd image size brightness
  = (brightness_pixel (brightness mod 256) <$> take (Z.to_nat full) image)
    ++ (brightness_pixel brightness
          <$> take (Z.to_nat (size mod 32)) (drop (Z.to_nat full) image))
    ++ drop (Z.to_nat size) image.
Proof.
  intros Hval Hsz full.
  pose proof (Z.mod_pos_bound size 32 eq_refl) as Hr.
  pose proof (Z.div_mod size 32 ltac:(lia)) as Hqr.
  assert (Hq : 0 <= size / 32) by (apply Z.div_pos; lia).
  rewrite adjust_brightness_simd_batch.
  rewrite (batch_kernel_spec 32 _ _ is_u8 eq_refl);
    [|intros g Hg _; now apply adds_epu8_lanes|easy|easy].
  fold full. f_equal.
  apply Forall2_eq_inv.
  replace (Z.to_nat full) with (Z.to_nat (Z.of_nat (Z.to_nat (size / 32)) * 32))
    by (unfold full; lia).
  apply (map_groups_agree 32 _ (brightness_pixel (brightness mod 256)) is_u8
           eq_refl eq); [|lia|easy].
  intros g Hg Hg'. rewrite set1_epi8_low_byte.
  rewrite brightness_group_agrees;
    [|pose proof (Z.mod_pos_bound brightness 256); lia|easy|easy].
  apply Forall_Forall2_diag, Forall_forall. auto.
Qed.

Lemma adjust_brightness_simd_low_byte_witness :
  adjust_brightness_simd (replicate 33 100) 33 (-10)
  = (brightness_pixel ((-10) mod 256) <$> take 32 (replicate 33 100))
    ++ (brightness_pixel (-10) <$> take 1 (drop 32 (replicate 33 100)))
    ++ drop 33 (replicate 33 100).
Proof.
  apply (adjust_brightness_simd_low_byte (replicate 33 100) 33 (-10)).
  - apply Forall_replicate. unfold is_u8. lia.
  - rewrite length_replicate. lia.
Defined.

(** Two adjustments of the same sign are one adjustment by the sum; the
    scalar benchmark of [main], which keeps adjusting the same image by 50,
    relies on it. *)
Lemma brightness_pixel_nonneg (b p : Z) :
  0 <= b -> is_u8 p -> brightness_pixel b p = Z.min 255 (p + b).
Proof.
  unfold is_u8, brightness_pixel, static_cast_uint8_t, std_min, std_max.
  intros Hb Hp. cbv zeta.
  destruct (Z.ltb_spec 0 (p + b)); destruct (Z.ltb_spec (p + b) 255);
    try destruct (Z.ltb_spec 0 255); rewrite Z.mod_small; lia.
Qed.

Lemma brightness_pixel_nonpos (b p : Z) :
  b <= 0 -> is_u8 p -> brightness_pixel b p = Z.max 0 (p + b).
Proof.
  unfold is_u8, brightness_pixel, static_cast_uint8_t, std_min, std_max.
  intros Hb Hp. cbv zeta.
  destruct (Z.ltb_spec 0 (p + b)); destruct (Z.ltb_spec (p + b) 255);
    try destruct (Z.ltb_spec 0 255); rewrite Z.mod_small; lia.
Qed.

Lemma brightness_pixel_u8 (b p : Z) : is_u8 (brightness_pixel b p).
Proof.
  unfold is_u8, brightness_pixel, static_cast_uint8_t.
  pose proof (Z.mod_pos_bound (std_min 255 (std_max 0 (p + b))) 256). lia.
Qed.

Lemma brightness_pixel_compose (b1 b2 p : Z) :
  0 <= b1 /\ 0 <= b2 \/ b1 <= 0 /\ b2 <= 0 -> is_u8 p ->
  brightness_pixel b2 (brightness_pixel b1 p) = brightness_pixel (b1 + b2) p.
Proof.
  intros [[H1 H2]|[H1 H2]] Hp.
  - rewrite (brightness_pixel_nonneg b1), (brightness_pixel_nonneg b2),
      (brightness_pixel_nonneg (b1 + b2)); unfold is_u8 in *; lia.
  - rewrite (brightness_pixel_nonpos b1), (brightness_pixel_nonpos b2),
      (brightness_pixel_nonpos (b1 + b2)); unfold is_u8 in *; lia.
Qed.

(** X7. Two scalar brightness adjustments of the same sign are one
    adjustment by the sum of the two amounts, as long as that sum is an
    [int] to which a byte can still be added without overflow (then so are
    the two amounts, being of one sign). *)
Theorem adjust_brightness_scalar_compose (image : list Z) (size b1 b2 : Z) :
  Forall is_u8 image -> 0 <= size <= Z.of_nat (length image) ->
  0 <= b1 /\ 0 <= b2 \/ b1 <= 0 /\ b2 <= 0 ->
  -2147483648 <= b1 + b2 <= 2147483647 - 255 ->
  adjust_brightness_scalar (adjust_brightness_scalar image size b1) size b2
  = adjust_brightness_scalar image size (b1 + b2).
Proof.
  intros Hval Hsz Hsign _.
  rewrite (adjust_brightness_scalar_spec image size b1) by easy.
  rewrite adjust_brightness_scalar_spec
    by (rewrite length_app, length_fmap, length_take, length_drop; lia).
  rewrite (adjust_brightness_scalar_spec image size (b1 + b2)) by easy.
  rewrite take_app_length', drop_app_length'
    by (rewrite length_fmap, length_take; lia).
  f_equal. rewrite <- list_fmap_compose.
  apply Forall_fmap_ext_1. apply Forall_take.
  eapply Forall_impl; [exact Hval|].
  intros p Hp. now apply brightness_pixel_compose.
Qed.

Lemma adjust_brightness_scalar_compose_witness :
  adjust_brightness_scalar
    (adjust_brightness_scalar (seqZ 190 66) 66 50) 66 50
  = adjust_brightness_scalar (seqZ 190 66) 66 (50 + 50).
Proof.
  apply adjust_brightness_scalar_compose.
  - apply Forall_forall. intros p Hp.
    apply elem_of_seqZ in Hp. unfold is_u8. lia.
  - rewrite length_seqZ. lia.
  - lia.
  - lia.
Defined.

(** With opposite signs the adjustments do not add up: the saturation of the
    first is not undone. *)
Example adjust_brightness_scalar_mixed_signs :
  adjust_brightness_scalar (adjust_brightness_scalar [250] 1 10) 1 (-10)
  = [245].
Proof. vm_compute. reflexivity. Qed.

(** ** Contrast enhancement *)

Lemma decode_finite_bound (w : Z) (s : bool) (m : positive) (e : Z) :
  F32.decode w = S754_finite s m e -> Zpos m < 16777216.
Proof.
  unfold F32.decode.
  assert (Hf : 0 <= F32.fraction w < 8388608).
  { unfold F32.fraction. change 8388607 with (Z.ones 23).
    rewrite Z.land_ones by lia. apply Z.mod_pos_bound. lia. }
  destruct (F32.biased_exp w =? 0).
  - destruct (F32.fraction w) eqn:Hm; intros [= <- <- <-]; lia.
  - destruct (F32.biased_exp w =? 255).
    + destruct (F32.fraction w); discriminate.
    + destruct (F32.fraction w + 8388608) eqn:Hm; intros [= <- <- <-]; lia.
Qed.

(** A float strictly between 0.0 and 255.0 is positive, finite and has an
    integer part of at most 254. *)
Lemma between_0_255 (v : Z) :
  F32.ltb F32.zero v = true -> F32.ltb v f32_255 = true ->
  exists m e, F32.decode v = S754_finite false m e /\ e < 0
              /\ 0 <= Zpos m / 2 ^ (- e) <= 254.
Proof.
  unfold F32.ltb, SFltb. intros H0 H255.
  change (F32.decode F32.zero) with (S754_zero false) in H0.
  change (F32.decode f32_255) with (S754_finite false 16711680 (-16)) in H255.
  pose proof (decode_finite_bound v) as Hb.
  unfold SFcompare in H0, H255.
  destruct (F32.decode v) as [s|s| |s m e]; cbv beta iota in H0, H255;
    try discriminate; destruct s; try discriminate.
  specialize (Hb false m e eq_refl). exists m, e. split; [reflexivity|].
  destruct (Z.compare_spec e (-16)) as [-> | Hlt | Hgt]; try discriminate.
  - split; [lia|]. change (- -16) with 16.
    destruct (PosDef.Pos.compare_cont Eq m 16711680) eqn:Hc;
      [discriminate H255| |discriminate H255].
    assert (Hm : Zpos m < 16711680) by (apply Pos2Z.pos_lt_pos; exact Hc).
    clear Hc H0 H255. change (2 ^ 16) with 65536.
    split; [apply Z.div_pos; lia|].
    assert (Zpos m / 65536 < 255); [|lia].
    apply Z.div_lt_upper_bound; lia.
  - clear H0 H255.
    split; [lia|]. split; [apply Z.div_pos; [lia|apply Z.pow_pos_nonneg; lia]|].
    assert (Hk : 2 ^ 17 <= 2 ^ (- e)) by (apply Z.pow_le_mono_r; lia).
    change (2 ^ 17) with 131072 in Hk.
    assert (Zpos m / 2 ^ (- e) <= Zpos m / 131072)
      by (apply Z.div_le_compat_l; lia).
    assert (Zpos m / 131072 < 128)
      by (apply Z.div_lt_upper_bound; lia).
    lia.
Qed.

Lemma nearest_even_vs_truncate (m : positive) (e : Z) :
  e < 0 ->
  let x := S754_finite false m e in
  SF_truncate x = Zpos m / 2 ^ (- e)
  /\ (SF_nearest_even x = SF_truncate x
      \/ SF_nearest_even x = SF_truncate x + 1).
Proof.
  intros He. unfold SF_truncate, SF_nearest_even. cbv zeta.
  destruct (Z.leb_spec 0 e); [lia|]. split; [reflexivity|].
  destruct (_ <? _); [now left|].
  destruct (_ <? _); [now right|].
  destruct (Z.even _); [now left|now right].
Qed.

Lemma clamp_0_255_cases (v : Z) :
  let r := std_minf f32_255 (std_maxf F32.zero v) in
  (F32.ltb F32.zero v = true /\ F32.ltb v f32_255 = true /\ r = v)
  \/ r = F32.zero \/ r = f32_255.
Proof.
  unfold std_minf, std_maxf. cbv zeta.
  destruct (F32.ltb F32.zero v) eqn:H0.
  - destruct (F32.ltb v f32_255) eqn:H255; auto.
  - right. left. reflexivity.
Qed.

Lemma contrast_lane_vs_pixel (contrast p : Z) :
  is_u8 p ->
  contrast_lane contrast p = contrast_pixel contrast p
  \/ contrast_lane contrast p = contrast_pixel contrast p + 1.
Proof.
  intros Hp. unfold contrast_lane, contrast_pixel. cbv zeta.
  assert (Hv : int32_value p = p)
    by (unfold int32_value, is_u8 in *;
        destruct (Z.ltb_spec p 2147483648); lia).
  rewrite Hv.
  set (v := F32.add (F32.mul (f32_sub (F32.of_Z p) f32_128) contrast) f32_128).
  destruct (clamp_0_255_cases v) as [(H0 & H255 & ->) | [-> | ->]].
  - destruct (between_0_255 v H0 H255) as (m & e & Hdec & He & Hq).
    destruct (nearest_even_vs_truncate m e He) as [Htr Hne].
    unfold static_cast_uint8_t_float, cvtps_epi32_lane. rewrite Hdec.
    set (t := SF_truncate (S754_finite false m e)) in *.
    set (n := SF_nearest_even (S754_finite false m e)) in *.
    assert (Hn : 0 <= n <= 255) by lia.
    destruct (Z.leb_spec (-2147483648) n); [|lia].
    destruct (Z.ltb_spec n 2147483648); [|lia].
    cbn [andb]. unfold int32_bits.
    rewrite (Z.mod_small n 4294967296), (Z.mod_small n 256),
      (Z.mod_small t 256) by lia.
    exact Hne.
  - left. reflexivity.
  - left. reflexivity.
Qed.

Lemma contrast_group_lanes (contrast : Z) (g : list Z) :
  Z.of_nat (length g) = 8 ->
  contrast_group contrast g = contrast_lane contrast <$> g.
Proof.
  intros Hg.
  unfold contrast_group, _mm256_cvtps_epi32, _mm256_cvtepi32_epi8,
    _mm256_min_ps, _mm256_max_ps, _mm256_add_ps, _mm256_mul_ps,
    _mm256_sub_ps, _mm256_cvtepi32_ps, _mm256_cvtepu8_epi32,
    _mm256_set1_ps, _mm256_setzero_ps.
  rewrite take_ge by lia.
  repeat rewrite zip_with_replicate_r_eq
    by (rewrite ?length_zip_with, ?length_fmap, ?length_replicate; lia).
  rewrite <- !list_fmap_compose.
  apply list_fmap_ext. intros _ p _.
  unfold contrast_lane, std_minf, std_maxf, F32.gtb, F32.ltb, compose, flip.
  reflexivity.
Qed.

Lemma enhance_contrast_simd_batch (image : list Z) (size contrast : Z) :
  enhance_contrast_simd image size contrast
  = batch_kernel 8 (contrast_group contrast) (contrast_pixel contrast)
      image size.
Proof. reflexivity. Qed.

Lemma enhance_contrast_scalar_spec (image : list Z) (size contrast : Z) :
  0 <= size <= Z.of_nat (length image) ->
  enhance_contrast_scalar image size contrast
  = (contrast_pixel contrast <$> take (Z.to_nat size) image)
    ++ drop (Z.to_nat size) image.
Proof.
  intros Hsz. unfold enhance_contrast_scalar.
  rewrite scalar_tail_spec by lia.
  change (Z.to_nat 0) with 0%nat. rewrite take_0, drop_0, Z.sub_0_r.
  reflexivity.
Qed.

(** X8. For every contrast factor, on every image of bytes, each byte of the
    vector contrast path is the byte of the scalar path or that byte plus
    one: the vector path converts with [_mm256_cvtps_epi32], which rounds to
    nearest, the scalar path with a cast, which truncates.  The scalar
    expression is taken with each operation rounded on its own, as the
    vector intrinsics round. *)
Theorem enhance_contrast_simd_within_one (image : list Z)
    (size contrast : Z) :
  Forall is_u8 image -> 0 <= size <= Z.of_nat (length image) ->
  Forall2 (fun v s => v = s \/ v = s + 1)
    (enhance_contrast_simd image size contrast)
    (enhance_contrast_scalar image size contrast).
Proof.
  intros Hval Hsz.
  rewrite enhance_contrast_simd_batch, enhance_contrast_scalar_spec by easy.
  apply (batch_kernel_agree 8 _ _ is_u8); try easy.
  - intros x. now left.
  - intros g Hg Hg'. rewrite contrast_group_lanes by easy.
    apply Forall2_fmap, Forall_Forall2_diag.
    eapply Forall_impl; [exact Hg'|].
    intros p Hp. now apply contrast_lane_vs_pixel.
Qed.

Lemma enhance_contrast_simd_within_one_witness :
  Forall2 (fun v s => v = s \/ v = s + 1)
    (enhance_contrast_simd (seqZ 120 20) 20 f32_1_5)
    (enhance_contrast_scalar (seqZ 120 20) 20 f32_1_5).
Proof.
  apply enhance_contrast_simd_within_one.
  - apply Forall_forall. intros p Hp.
    apply elem_of_seqZ in Hp. unfold is_u8. lia.
  - rewrite length_seqZ. lia.
Defined.

(** The two paths do differ: at contrast 1.5 the pixel 129 becomes 129.5,
    which the scalar cast truncates and the vector conversion rounds. *)
Example enhance_contrast_paths_differ :
  F32.nearest f32_1_5 3 2 = true
  /\ enhance_contrast_scalar (replicate 8 129) 8 f32_1_5 = replicate 8 129
  /\ enhance_contrast_simd (replicate 8 129) 8 f32_1_5 = replicate 8 130.
Proof. repeat split; vm_compute; reflexivity. Qed.

(** At contrast 1.0 every byte is kept, by both conversions. *)
Lemma contrast_one_bytes :
  forallb (fun p => (contrast_pixel f32_1_0 p =? p)
                    && (contrast_lane f32_1_0 p =? p))
          (seqZ 0 256) = true.
Proof. vm_compute. reflexivity. Qed.

Lemma contrast_one_byte (p : Z) :
  is_u8 p -> contrast_pixel f32_1_0 p = p /\ contrast_lane f32_1_0 p = p.
Proof.
  intros Hp. pose proof contrast_one_bytes as H.
  rewrite forallb_forall in H. specialize (H p).
  rewrite andb_true_iff, !Z.eqb_eq in H. apply H.
  apply list_elem_of_In, elem_of_seqZ. unfold is_u8 in Hp. lia.
Qed.

(** X9. With the contrast factor 1.0 both contrast paths leave every byte of
    the image as it was. *)
Theorem enhance_contrast_one_is_identity (image : list Z) (size : Z) :
  Forall is_u8 image -> 0 <= size <= Z.of_nat (length image) ->
  enhance_contrast_scalar image size f32_1_0 = image
  /\ enhance_contrast_simd image size f32_1_0 = image.
Proof.
  intros Hval Hsz.
  assert (Hs : enhance_contrast_scalar image size f32_1_0 = image).
  { rewrite enhance_contrast_scalar_spec by easy.
    rewrite <- (take_drop (Z.to_nat size) image) at 3. f_equal.
    rewrite <- (list_fmap_id (take _ _)) at 2.
    apply Forall_fmap_ext_1, Forall_take.
    eapply Forall_impl; [exact Hval|]. intros p Hp.
    unfold id. exact (proj1 (contrast_one_byte p Hp)). }
  split; [exact Hs|].
  rewrite <- Hs at 2. apply Forall2_eq_inv.
  rewrite enhance_contrast_simd_batch, enhance_contrast_scalar_spec by easy.
  apply (batch_kernel_agree 8 _ _ is_u8 eq); try easy.
  intros g Hg Hg'. rewrite contrast_group_lanes by easy.
  apply Forall2_fmap, Forall_Forall2_diag.
  eapply Forall_impl; [exact Hg'|].
  intros p Hp. destruct (contrast_one_byte p Hp) as [-> ->]. reflexivity.
Qed.

Lemma enhance_contrast_one_is_identity_witness :
  enhance_contrast_scalar (seqZ 120 20) 20 f32_1_0 = seqZ 120 20
  /\ enhance_contrast_simd (seqZ 120 20) 20 f32_1_0 = seqZ 120 20.
Proof.
  apply enhance_contrast_one_is_identity.
  - apply Forall_forall. intros p Hp.
    apply elem_of_seqZ in Hp. unfold is_u8. lia.
  - rewrite length_seqZ. lia.
Defined.

(** ** Array of structures and structure of arrays *)

Lemma insert_after_prefix (l : list Z) (k : nat) (a : Z) :
  <[length l := a]> (l ++ replicate (S k) F32.zero)
  = (l ++ [a]) ++ replicate k F32.zero.
Proof.
  rewrite insert_app_r_alt by lia. rewrite Nat.sub_diag.
  now rewrite <- app_assoc.
Qed.

Lemma convertToSoA_steps (vectors : list Vec3.t) (n : nat) :
  (n <= length vectors)%nat ->
  for_range 0 (Z.of_nat n)
    (fun i result => Vec3Array_set result i (vectors !!! Z.to_nat i))
    (Vec3Array_new (Z.of_nat (length vectors)))
  = Vec3Array.mk
      ((Vec3.x <$> take n vectors)
         ++ replicate (length vectors - n) F32.zero)
      ((Vec3.y <$> take n vectors)
         ++ replicate (length vectors - n) F32.zero)
      ((Vec3.z <$> take n vectors)
         ++ replicate (length vectors - n) F32.zero).
Proof.
  induction n as [|n IH]; intros Hn.
  - unfold Vec3Array_new. rewrite Nat2Z.id, Nat.sub_0_r. reflexivity.
  - rewrite for_range_S, IH by lia. unfold Vec3Array_set.
    cbn [Vec3Array.x Vec3Array.y Vec3Array.z]. rewrite Nat2Z.id.
    destruct (lookup_lt_is_Some_2 vectors n) as [v Hv]; [lia|].
    rewrite (list_lookup_total_correct _ _ _ Hv).
    rewrite (take_S_r _ _ _ Hv), !fmap_app.
    replace (length vectors - n)%nat with (S (length vectors - S n)) by lia.
    assert (Hlen : forall f : Vec3.t -> Z, length (f <$> take n vectors) = n)
      by (intros f; rewrite length_fmap, length_take; lia).
    f_equal.
    + rewrite <- (Hlen Vec3.x) at 1. apply insert_after_prefix.
    + rewrite <- (Hlen Vec3.y) at 1. apply insert_after_prefix.
    + rewrite <- (Hlen Vec3.z) at 1. apply insert_after_prefix.
Qed.

Lemma convertToSoA_spec (vectors : list Vec3.t) :
  convertToSoA vectors
  = Vec3Array.mk (Vec3.x <$> vectors) (Vec3.y <$> vectors)
                 (Vec3.z <$> vectors).
Proof.
  unfold convertToSoA. cbv zeta.
  rewrite convertToSoA_steps by lia.
  rewrite firstn_all, Nat.sub_diag. simpl replicate.
  now rewrite !app_nil_r.
Qed.

Lemma convertToSoA_at (vectors : list Vec3.t) (i : Z) :
  0 <= i < Z.of_nat (length vectors) ->
  Vec3Array.at_ (convertToSoA vectors) i = vectors !!! Z.to_nat i.
Proof.
  intros Hi. rewrite convertToSoA_spec. unfold Vec3Array.at_.
  cbn [Vec3Array.x Vec3Array.y Vec3Array.z].
  destruct (lookup_lt_is_Some_2 vectors (Z.to_nat i)) as [v Hv]; [lia|].
  rewrite (list_lookup_total_correct _ _ _ Hv).
  rewrite !(list_lookup_total_correct _ (Z.to_nat i) (_ v))
    by (rewrite list_lookup_fmap, Hv; reflexivity).
  now destruct v.
Qed.

(** X10. [convertToSoA] loses nothing: the three component arrays are the
    x, y and z of the input in order, the [Vec3] built from [x[i]], [y[i]]
    and [z[i]] of the result (as the remainder loop of
    [simdDotProductLarge] builds it) is the input vector [i], and the three
    arrays have one length. *)
Theorem convertToSoA_round_trip (vectors : list Vec3.t) :
  Vec3Array.x (convertToSoA vectors) = Vec3.x <$> vectors
  /\ Vec3Array.y (convertToSoA vectors) = Vec3.y <$> vectors
  /\ Vec3Array.z (convertToSoA vectors) = Vec3.z <$> vectors
  /\ (forall i, 0 <= i < Z.of_nat (length vectors) ->
        Vec3.mk (Vec3Array.x (convertToSoA vectors) !!! Z.to_nat i)
                (Vec3Array.y (convertToSoA vectors) !!! Z.to_nat i)
                (Vec3Array.z (convertToSoA vectors) !!! Z.to_nat i)
        = vectors !!! Z.to_nat i)
  /\ Vec3Array.same_size (convertToSoA vectors) (convertToSoA vectors).
Proof.
  split; [|split; [|split; [|split]]].
  1-3: now rewrite convertToSoA_spec.
  - exact (convertToSoA_at vectors).
  - rewrite convertToSoA_spec. unfold Vec3Array.same_size.
    cbn [Vec3Array.x Vec3Array.y Vec3Array.z].
    rewrite !length_fmap. tauto.
Qed.

(** X11. The gathering kernel [simdDotProduct8] on the first eight vectors
    of two arrays of structures computes, lane for lane, what
    [simdDotProductSoA8] computes at offset 0 on the converted arrays. *)
Theorem simdDotProduct8_layout_independent (vectors1 vectors2 : list Vec3.t) :
  (8 <= length vectors1)%nat -> (8 <= length vectors2)%nat ->
  simdDotProduct8 vectors1 vectors2
  = simdDotProductSoA8 (convertToSoA vectors1) (convertToSoA vectors2) 0.
Proof.
  intros H1 H2. rewrite !convertToSoA_spec.
  do 8 (destruct vectors1 as [|? vectors1]; [simpl in H1; lia|]).
  do 8 (destruct vectors2 as [|? vectors2]; [simpl in H2; lia|]).
  cbv -[F32.mul F32.fma Vec3.x Vec3.y Vec3.z]. reflexivity.
Qed.

Lemma simdDotProduct8_layout_independent_witness :
  simdDotProduct8 (replicate 8 main_v1) (replicate 8 main_v2)
  = simdDotProductSoA8 (convertToSoA (replicate 8 main_v1))
      (convertToSoA (replicate 8 main_v2)) 0.
Proof.
  apply simdDotProduct8_layout_independent; rewrite length_replicate; lia.
Defined.

(** ** Fewer than eight vectors *)

Lemma for_loop_ext_in {St : Type} (body1 body2 : Z -> St -> St) (stop : Z)
    (fuel : nat) :
  forall i s,
    (forall j s', i <= j < stop -> body1 j s' = body2 j s') ->
    for_loop fuel i stop body1 s = for_loop fuel i stop body2 s.
Proof.
  induction fuel as [|fuel IH]; intros i s Hext; simpl; [easy|].
  destruct (Z.ltb_spec i stop); [|easy].
  rewrite Hext by lia. apply IH. intros j s' Hj. apply Hext. lia.
Qed.

(** X12. With fewer than eight vectors [simdDotProductLarge] runs no block:
    its result is the remainder loop alone, and that is bit for bit the
    result of [scalarDotProduct] on the same vectors. *)
Theorem simdDotProductLarge_small_is_scalar (vectors1 vectors2 : list Vec3.t) :
  (length vectors1 < 8)%nat -> length vectors2 = length vectors1 ->
  simdDotProductLarge (convertToSoA vectors1) (convertToSoA vectors2)
  = scalarDotProduct vectors1 vectors2.
Proof.
  intros Hsmall Hlen. unfold simdDotProductLarge, scalarDotProduct.
  assert (Hsize : Z.of_nat (length (Vec3Array.x (convertToSoA vectors1)))
                  = Z.of_nat (length vectors1))
    by (rewrite convertToSoA_spec; cbn [Vec3Array.x];
        now rewrite length_fmap).
  cbv zeta. rewrite !Hsize, Z.div_small by lia.
  change (dot_horizontal_sum (dot_accumulator _ _ 0)) with F32.zero.
  unfold dot_remainder, for_range. change (0 * 8) with 0.
  apply for_loop_ext_in. intros j s Hj.
  rewrite !convertToSoA_at by lia. reflexivity.
Qed.

Lemma simdDotProductLarge_small_is_scalar_witness :
  simdDotProductLarge (convertToSoA [main_v1; main_v2; main_v1])
                      (convertToSoA [main_v2; main_v1; main_v1])
  = scalarDotProduct [main_v1; main_v2; main_v1] [main_v2; main_v1; main_v1].
Proof. apply simdDotProductLarge_small_is_scalar; simpl; lia. Defined.

(** ** A zero operand *)

Lemma f32_is_zero_decode (w : Z) :
  f32_is_zero w -> exists s, F32.decode w = S754_zero s.
Proof. intros [-> | ->]; [exists false|exists true]; reflexivity. Qed.

Lemma encode_zero_is_zero (s : bool) : f32_is_zero (F32.encode (S754_zero s)).
Proof. destruct s; [right|left]; reflexivity. Qed.

Lemma mul_zero_finite (y : Z) :
  f32_finite y -> f32_is_zero (F32.mul F32.zero y).
Proof.
  unfold f32_finite, F32.mul.
  change (F32.decode F32.zero) with (S754_zero false).
  destruct (F32.decode y) as [s|s| |s m e]; intros Hy; try easy;
    apply encode_zero_is_zero.
Qed.

Lemma add_zeros (a b : Z) :
  f32_is_zero a -> f32_is_zero b -> f32_is_zero (F32.add a b).
Proof.
  intros Ha Hb. unfold F32.add.
  destruct (f32_is_zero_decode a Ha) as [sa ->].
  destruct (f32_is_zero_decode b Hb) as [sb ->].
  destruct sa, sb; apply encode_zero_is_zero.
Qed.

Lemma add_plus_zero (b : Z) : f32_is_zero b -> F32.add F32.zero b = F32.zero.
Proof. intros [-> | ->]; reflexivity. Qed.

Lemma fma_zero_finite (y c : Z) :
  f32_finite y -> f32_is_zero c -> f32_is_zero (F32.fma F32.zero y c).
Proof.
  unfold f32_finite, F32.fma, F32.SFfma.
  change (F32.decode F32.zero) with (S754_zero false).
  intros Hy Hc. destruct (f32_is_zero_decode c Hc) as [sc ->].
  destruct (F32.decode y) as [s|s| |s m e]; try easy;
    cbn [SFmul SFadd xorb]; destruct s, sc; apply encode_zero_is_zero.
Qed.

Lemma dot_zero_finite (v1 v2 : Vec3.t) :
  Vec3.x v1 = F32.zero -> Vec3.y v1 = F32.zero -> Vec3.z v1 = F32.zero ->
  f32_finite (Vec3.x v2) -> f32_finite (Vec3.y v2) -> f32_finite (Vec3.z v2) ->
  f32_is_zero (Vec3.dot v1 v2).
Proof.
  intros H1 H2 H3 Hx Hy Hz. unfold Vec3.dot. rewrite H1, H2, H3.
  apply add_zeros; [apply add_zeros|]; apply mul_zero_finite; assumption.
Qed.

Lemma Forall_zip_with2 {A B C : Type} (f : A -> B -> C)
    (P : A -> Prop) (Q : B -> Prop) (R : C -> Prop) :
  (forall a b, P a -> Q b -> R (f a b)) ->
  forall l k, Forall P l -> Forall Q k -> Forall R (zip_with f l k).
Proof.
  intros Hf l k Hl. revert k.
  induction Hl as [|a l Ha Hl IH]; intros k Hk; [constructor|].
  destruct Hk as [|b k Hb Hk]; [constructor|].
  simpl. constructor; auto.
Qed.

Lemma for_loop_invariant {St : Type} (P : St -> Prop) (body : Z -> St -> St)
    (stop : Z) (fuel : nat) :
  forall i s,
    P s -> (forall j s', i <= j < stop -> P s' -> P (body j s')) ->
    P (for_loop fuel i stop body s).
Proof.
  induction fuel as [|fuel IH]; intros i s Hs Hstep; simpl; [easy|].
  destruct (Z.ltb_spec i stop); [|easy].
  apply IH; [apply Hstep; [lia|easy]|].
  intros j s' Hj. apply Hstep. lia.
Qed.

Lemma Forall_loadu_ps (P : Z -> Prop) (a : list Z) (i : Z) :
  Forall P a -> Forall P (_mm256_loadu_ps a i).
Proof.
  intros Ha. unfold _mm256_loadu_ps, loadu.
  apply Forall_take, Forall_drop. exact Ha.
Qed.

Lemma add_plus_zero_lanes (k : list Z) :
  Forall f32_is_zero k ->
  F32.add F32.zero <$> k = replicate (length k) F32.zero.
Proof.
  induction 1 as [|d ds Hd Hds IH]; [reflexivity|].
  cbn [fmap list_fmap length replicate].
  rewrite add_plus_zero by assumption. f_equal. exact IH.
Qed.

Section zero_operand.
Variables vectors1 vectors2 : Vec3Array.t.
Hypothesis sizes : Vec3Array.same_size vectors1 vectors2.
Hypothesis zeros :
  Forall (fun w => w = F32.zero) (Vec3Array.x vectors1)
  /\ Forall (fun w => w = F32.zero) (Vec3Array.y vectors1)
  /\ Forall (fun w => w = F32.zero) (Vec3Array.z vectors1).
Hypothesis finite :
  Forall f32_finite (Vec3Array.x vectors2)
  /\ Forall f32_finite (Vec3Array.y vectors2)
  /\ Forall f32_finite (Vec3Array.z vectors2).

Lemma simdDotProductSoA8_zero (offset : Z) :
  Forall f32_is_zero (simdDotProductSoA8 vectors1 vectors2 offset).
Proof.
  destruct zeros as (Hx & Hy & Hz). destruct finite as (Fx & Fy & Fz).
  unfold simdDotProductSoA8, _mm256_fmadd_ps, _mm256_mul_ps. cbv zeta.
  assert (Hpair : forall a b,
            Forall (fun w => w = F32.zero) a -> Forall f32_finite b ->
            Forall (fun ab : Z * Z => ab.1 = F32.zero /\ f32_finite ab.2)
                   (zip (_mm256_loadu_ps a offset) (_mm256_loadu_ps b offset))).
  { intros a b Ha Hb.
    apply (Forall_zip_with2 pair (fun w => w = F32.zero) f32_finite).
    - intros x y Hx' Hy'. split; assumption.
    - apply Forall_loadu_ps; assumption.
    - apply Forall_loadu_ps; assumption. }
  assert (Hfma : forall (ab : Z * Z) c,
            ab.1 = F32.zero /\ f32_finite ab.2 -> f32_is_zero c ->
            f32_is_zero (F32.fma ab.1 ab.2 c)).
  { intros [a b] c [Ha Hb] Hc. cbn [fst snd] in *. subst a.
    apply fma_zero_finite; assumption. }
  apply (Forall_zip_with2 _ _ f32_is_zero _ Hfma);
    [apply Hpair; assumption|].
  apply (Forall_zip_with2 _ _ f32_is_zero _ Hfma);
    [apply Hpair; assumption|].
  apply (Forall_zip_with2 F32.mul (fun w => w = F32.zero) f32_finite).
  - intros a b Ha Hb. subst a. apply mul_zero_finite; assumption.
  - apply Forall_loadu_ps; assumption.
  - apply Forall_loadu_ps; assumption.
Qed.

Lemma dot_accumulator_zero (n : nat) :
  Z.of_nat n <= Z.of_nat (length (Vec3Array.x vectors1)) / 8 ->
  dot_accumulator vectors1 vectors2 (Z.of_nat n) = _mm256_setzero_ps.
Proof.
  pose proof (Z.mul_div_le (Z.of_nat (length (Vec3Array.x vectors1))) 8).
  induction n as [|n IH]; intros Hn; [reflexivity|].
  rewrite dot_accumulator_S, IH by lia.
  pose proof (simdDotProductSoA8_zero (Z.of_nat n * 8)) as Hz.
  pose proof (length_simdDotProductSoA8 vectors1 vectors2 sizes
                (Z.of_nat n * 8)) as Hl.
  specialize (Hl ltac:(lia) ltac:(lia)).
  unfold _mm256_add_ps, _mm256_setzero_ps.
  rewrite zip_with_replicate_l by lia.
  rewrite add_plus_zero_lanes by exact Hz. now rewrite Hl.
Qed.
End zero_operand.

(** X13. If every component of the first array is +0.0 and every component
    of the second is finite, [simdDotProductLarge] returns +0.0, for every
    size, through blocks, horizontal sum and remainder. *)
Theorem simdDotProductLarge_zero_operand (vectors1 vectors2 : Vec3Array.t) :
  Vec3Array.same_size vectors1 vectors2 ->
  Forall (fun w => w = F32.zero) (Vec3Array.x vectors1)
  /\ Forall (fun w => w = F32.zero) (Vec3Array.y vectors1)
  /\ Forall (fun w => w = F32.zero) (Vec3Array.z vectors1) ->
  Forall f32_finite (Vec3Array.x vectors2)
  /\ Forall f32_finite (Vec3Array.y vectors2)
  /\ Forall f32_finite (Vec3Array.z vectors2) ->
  simdDotProductLarge vectors1 vectors2 = F32.zero.
Proof.
  intros Hsizes Hzeros Hfinite. unfold simdDotProductLarge. cbv zeta.
  set (size := Z.of_nat (length (Vec3Array.x vectors1))).
  assert (Hb : 0 <= size / 8) by (apply Z.div_pos; unfold size; lia).
  assert (Hacc : dot_accumulator vectors1 vectors2 (size / 8)
                 = _mm256_setzero_ps).
  { rewrite <- (Z2Nat.id (size / 8)) by exact Hb.
    apply (dot_accumulator_zero vectors1 vectors2 Hsizes Hzeros Hfinite).
    fold size. lia. }
  rewrite Hacc.
  change (dot_horizontal_sum _mm256_setzero_ps) with F32.zero.
  unfold dot_remainder, for_range.
  apply (for_loop_invariant (fun total => total = F32.zero)); [reflexivity|].
  intros j total Hj ->.
  assert (Hj0 : 0 <= j < size) by lia.
  destruct Hsizes as (Hy1 & Hz1 & Hx2 & Hy2 & Hz2).
  destruct Hzeros as (Zx & Zy & Zz). destruct Hfinite as (Fx & Fy & Fz).
  assert (Hlook : forall (P : Z -> Prop) (l : list Z),
            Forall P l -> length l = length (Vec3Array.x vectors1) ->
            P (l !!! Z.to_nat j)).
  { intros P l HP Hl.
    destruct (lookup_lt_is_Some_2 l (Z.to_nat j)) as [w Hw];
      [unfold size in Hj0; lia|].
    rewrite (list_lookup_total_correct _ _ _ Hw).
    exact (Forall_lookup_1 _ _ _ _ HP Hw). }
  apply add_plus_zero, dot_zero_finite; unfold Vec3Array.at_;
    cbn [Vec3.x Vec3.y Vec3.z];
    first [ apply (Hlook (fun w => w = F32.zero)); [assumption|congruence]
          | apply (Hlook f32_finite); [assumption|congruence] ].
Qed.

Lemma simdDotProductLarge_zero_operand_witness :
  simdDotProductLarge
    (Vec3Array.mk (replicate 11 F32.zero) (replicate 11 F32.zero)
                  (replicate 11 F32.zero))
    (Vec3Array.mk (replicate 11 f32_m0_3) (replicate 11 f32_0_7)
                  (replicate 11 f32_m0_4))
  = F32.zero.
Proof.
  apply simdDotProductLarge_zero_operand.
  - repeat split; reflexivity.
  - repeat split; apply Forall_replicate; reflexivity.
  - repeat split; apply Forall_replicate; exact I.
Defined.

(** ** Masked store and masked load together *)

(** X14. A masked load after a masked store under the same mask reads the
    stored vector: the selected lanes are the lanes of the vector, whatever
    the memory held, and the others are zero. *)
Theorem maskstore_maskload_round_trip (mem mask a : list Z) :
  length mask = 8%nat -> (8 <= length mem)%nat ->
  _mm256_maskload_ps (_mm256_maskstore_ps mem mask a) mask
  = _mm256_maskload_ps a mask.
Proof.
  intros Hmask Hmem. apply list_eq. intros i.
  rewrite !maskload_lookup.
  destruct (mask !! i) as [m|] eqn:Hm; [|reflexivity].
  cbn [fmap option_fmap option_map]. f_equal.
  destruct (lane_selected m) eqn:Hsel; [|reflexivity].
  assert (Hi : (i < 8)%nat) by (rewrite <- Hmask; eapply lookup_lt_Some; eauto).
  destruct (lookup_lt_is_Some_2 mem i) as [old Hold]; [lia|].
  apply list_lookup_total_correct.
  rewrite maskstore_lookup, Hold, (lookup_total_of_lookup _ _ _ Hm), Hsel.
  cbn [fmap option_fmap option_map].
  now rewrite bool_decide_eq_true_2 by exact Hi.
Qed.

Lemma maskstore_maskload_round_trip_witness :
  _mm256_maskload_ps
    (_mm256_maskstore_ps (replicate 8 F32.zero)
       (_mm256_set_epi32 (-1) 0 (-1) 0 (-1) 0 (-1) 0) test_vec)
    (_mm256_set_epi32 (-1) 0 (-1) 0 (-1) 0 (-1) 0)
  = _mm256_maskload_ps test_vec (_mm256_set_epi32 (-1) 0 (-1) 0 (-1) 0 (-1) 0).
Proof. apply maskstore_maskload_round_trip; [reflexivity|simpl; lia]. Defined.

Lemma lane_selected_default : lane_selected inhabitant = false.
Proof. reflexivity. Qed.

(** X15. A masked store under a mask that selects no lane leaves the memory
    as it was. *)
Theorem maskstore_none_selected (mem mask a : list Z) :
  Forall (fun m => lane_selected m = false) mask ->
  _mm256_maskstore_ps mem mask a = mem.
Proof.
  intros Hnone. apply list_eq. intros i. rewrite maskstore_lookup.
  assert (Hsel : lane_selected (mask !!! i) = false).
  { destruct (mask !! i) as [m|] eqn:Hm.
    - rewrite (lookup_total_of_lookup _ _ _ Hm).
      exact (Forall_lookup_1 _ _ _ _ Hnone Hm).
    - rewrite list_lookup_total_alt, Hm. exact lane_selected_default. }
  rewrite Hsel, andb_false_r. now destruct (mem !! i).
Qed.

Lemma maskstore_none_selected_witness :
  _mm256_maskstore_ps (F32.of_Z <$> [1; 2; 3; 4; 5; 6; 7; 8; 9])
    (replicate 8 0) test_vec
  = F32.of_Z <$> [1; 2; 3; 4; 5; 6; 7; 8; 9].
Proof.
  apply maskstore_none_selected. apply Forall_replicate. reflexivity.
Defined.

(** X16. A masked store under a mask that selects all eight lanes is the
    unaligned store of the vector. *)
Theorem maskstore_all_selected (mem mask a : list Z) :
  Forall (fun m => lane_selected m = true) mask ->
  length mask = 8%nat -> length a = 8%nat -> (8 <= length mem)%nat ->
  _mm256_maskstore_ps mem mask a = _mm256_storeu_ps mem a.
Proof.
  intros Hall Hmask Ha Hmem. apply list_eq. intros i.
  rewrite maskstore_lookup. unfold _mm256_storeu_ps, storeu.
  change (Z.to_nat 0) with 0%nat. rewrite take_0, Ha. cbn [app Nat.add].
  destruct (Nat.lt_ge_cases i 8) as [Hi|Hi].
  - destruct (lookup_lt_is_Some_2 mask i) as [m Hm]; [lia|].
    destruct (lookup_lt_is_Some_2 mem i) as [old Hold]; [lia|].
    destruct (lookup_lt_is_Some_2 a i) as [x Hx]; [lia|].
    rewrite Hold, (lookup_total_of_lookup _ _ _ Hm),
      (Forall_lookup_1 _ _ _ _ Hall Hm), (lookup_total_of_lookup _ _ _ Hx).
    rewrite lookup_app_l, Hx by lia.
    cbn [fmap option_fmap option_map].
    now rewrite bool_decide_eq_true_2 by exact Hi.
  - rewrite lookup_app_r, lookup_drop, Ha by lia.
    replace (8 + (i - 8))%nat with i by lia.
    rewrite bool_decide_eq_false_2 by lia.
    now destruct (mem !! i).
Qed.

Lemma maskstore_all_selected_witness :
  _mm256_maskstore_ps (F32.of_Z <$> [1; 2; 3; 4; 5; 6; 7; 8; 9])
    (replicate 8 all_ones) test_vec
  = _mm256_storeu_ps (F32.of_Z <$> [1; 2; 3; 4; 5; 6; 7; 8; 9]) test_vec.
Proof.
  apply maskstore_all_selected.
  - apply Forall_replicate. reflexivity.
  - reflexivity.
  - reflexivity.
  - simpl. lia.
Defined.

(** ** The speedup when the vector run takes no measured time *)

Lemma F64_div_by_zero (x : spec_float) :
  match F64.div x (F64.of_Z 0) with
  | S754_infinity _ | S754_nan => True
  | _ => False
  end.
Proof.
  change (F64.of_Z 0) with (S754_zero false). unfold F64.div.
  destruct x as [s|s| |s m e]; exact I.
Qed.

(** X17. [benchmark_comparison] divides by the measured duration of the
    vector run without a guard: when that duration is 0 microseconds the
    speedup it prints is an infinity or a NaN, never a finite number. *)
Theorem speedup_not_finite_without_vector_time {St : Type} (clock : nat -> Z)
    (label : list Byte.byte) (scalar_func simd_func : St -> St)
    (iterations : Z) (m : Bench.machine St) :
  let k := Bench.reads m in
  Z.quot (clock (S (S (S k))) - clock (S (S k))) 1000 = 0 ->
  match Bench.speedup
          (Bench.benchmark_comparison clock label scalar_func simd_func
             iterations m).1 with
  | S754_infinity _ | S754_nan => True
  | _ => False
  end.
Proof.
  intros k Hzero. rewrite benchmark_comparison_run.
  cbn [fst Bench.speedup]. unfold Bench.duration_micros. fold k.
  rewrite Hzero. apply F64_div_by_zero.
Qed.

Lemma speedup_not_finite_without_vector_time_witness :
  match Bench.speedup
          (Bench.benchmark_comparison (fun n => Z.of_nat n * 100) []
             (fun x : Z => x + 1) (fun x : Z => x * 2) 3
             (Bench.mkMachine 0 0%nat [])).1 with
  | S754_infinity _ | S754_nan => True
  | _ => False
  end.
Proof.
  apply (speedup_not_finite_without_vector_time (fun n => Z.of_nat n * 100) []
           (fun x : Z => x + 1) (fun x : Z => x * 2) 3
           (Bench.mkMachine 0 0%nat [])).
  reflexivity.
Defined.

(** ** The size of an allocation request wraps *)

(** X18. [aligned_alloc] multiplies [size] by [sizeof(T)] in [size_t]
    without a check: two element counts whose byte counts differ by 2^64
    issue the same request, and a count whose byte count is 2^64 asks for 0
    bytes. *)
Theorem aligned_alloc_size_wraps {Heap : Type}
    (posix_memalign : Heap -> Z -> Z -> Z * Z * Heap) (sizeof_T : Z)
    (h : Heap) (size alignment d : Z) :
  sizeof_T * d = 18446744073709551616 ->
  Alloc.aligned_alloc posix_memalign sizeof_T h (size + d) alignment
  = Alloc.aligned_alloc posix_memalign sizeof_T h size alignment
  /\ Alloc.request_bytes sizeof_T d = 0.
Proof.
  intros Hd. unfold Alloc.aligned_alloc, Alloc.request_bytes.
  replace ((size + d) * sizeof_T)
    with (size * sizeof_T + 1 * 18446744073709551616) by lia.
  rewrite Z.mod_add by lia. split; [reflexivity|].
  replace (d * sizeof_T) with (1 * 18446744073709551616) by lia.
  apply Z.mod_mul. lia.
Qed.

Lemma aligned_alloc_size_wraps_witness :
  Alloc.aligned_alloc Alloc.bump_memalign 4 5 (8 + 4611686018427387904) 32
  = Alloc.aligned_alloc Alloc.bump_memalign 4 5 8 32
  /\ Alloc.request_bytes 4 4611686018427387904 = 0.
Proof.
  apply (aligned_alloc_size_wraps Alloc.bump_memalign 4 5 8 32
           4611686018427387904).
  reflexivity.
Defined.

(** ** The brightness benchmark of [main] *)

Lemma IMAGE_SIZE_nonneg : 0 <= IMAGE_SIZE.
Proof. discriminate. Qed.

Lemma brightness_scalar_length (processed : list Z) :
  Z.of_nat (length processed) = IMAGE_SIZE ->
  Z.of_nat (length (brightness_scalar processed)) = IMAGE_SIZE.
Proof.
  intros Hlen. pose proof IMAGE_SIZE_nonneg. unfold brightness_scalar.
  rewrite adjust_brightness_scalar_spec by lia.
  rewrite length_app, length_fmap, length_take, length_drop. lia.
Qed.

Lemma brightness_simd_result (original processed : list Z) :
  Forall is_u8 original ->
  Z.of_nat (length original) = IMAGE_SIZE ->
  Z.of_nat (length processed) = IMAGE_SIZE ->
  brightness_simd original processed = brightness_pixel 50 <$> original.
Proof.
  intros Hval Ho Hp. pose proof IMAGE_SIZE_nonneg.
  unfold brightness_simd, std_copy. cbv zeta.
  rewrite (take_ge original), (drop_ge processed), app_nil_r by lia.
  rewrite adjust_brightness_simd_spec; [|lia|lia|assumption].
  rewrite take_ge, drop_ge, app_nil_r by lia. reflexivity.
Qed.

(** X19. The brightness benchmark of [main]: the scalar callable adjusts the
    processed image in place again at each call, the vector callable resets
    it from the original first and runs last, so after
    [benchmark_comparison], for every iteration count, the processed image
    is the original adjusted by 50 exactly once. *)
Theorem brightness_benchmark_final_image (clock : nat -> Z)
    (label : list Byte.byte) (original : list Z) (iterations : Z)
    (m : Bench.machine (list Z)) :
  Forall is_u8 original ->
  Z.of_nat (length original) = IMAGE_SIZE ->
  Z.of_nat (length (Bench.state m)) = IMAGE_SIZE ->
  Bench.state
    (Bench.benchmark_comparison clock label brightness_scalar
       (brightness_simd original) iterations m).2
  = adjust_brightness_scalar original IMAGE_SIZE 50.
Proof.
  intros Hval Ho Hm. pose proof IMAGE_SIZE_nonneg.
  assert (Hrhs : adjust_brightness_scalar original IMAGE_SIZE 50
                 = brightness_pixel 50 <$> original).
  { rewrite adjust_brightness_scalar_spec by lia.
    rewrite take_ge, drop_ge, app_nil_r by lia. reflexivity. }
  rewrite Hrhs. clear Hrhs.
  rewrite benchmark_comparison_run. cbn [snd Bench.state].
  set (n := Z.to_nat iterations).
  set (warm := brightness_simd original (brightness_scalar (Bench.state m))).
  assert (Hwarm : warm = brightness_pixel 50 <$> original).
  { apply brightness_simd_result; [assumption|assumption|].
    apply brightness_scalar_length. assumption. }
  assert (Hlen : forall k, Z.of_nat (length (Nat.iter k brightness_scalar warm))
                           = IMAGE_SIZE).
  { induction k as [|k IH]; cbn [Nat.iter nat_rect].
    - rewrite Hwarm, length_fmap. exact Ho.
    - apply brightness_scalar_length. exact IH. }
  destruct n as [|n]; [exact Hwarm|].
  pose proof (Hlen (S n)) as HX.
  revert HX. generalize (Nat.iter (S n) brightness_scalar warm) as X.
  intros X HX. cbn [Nat.iter nat_rect].
  apply brightness_simd_result; [assumption|assumption|].
  induction n as [|n IH]; cbn [Nat.iter nat_rect]; [exact HX|].
  rewrite brightness_simd_result; [|assumption|assumption|exact IH].
  rewrite length_fmap. exact Ho.
Qed.

Lemma brightness_benchmark_final_image_witness :
  Bench.state
    (Bench.benchmark_comparison (fun n => Z.of_nat n * 1000) []
       brightness_scalar
       (brightness_simd (replicate (Z.to_nat IMAGE_SIZE) 100)) 100
       (Bench.mkMachine (replicate (Z.to_nat IMAGE_SIZE) 0) 0%nat [])).2
  = adjust_brightness_scalar (replicate (Z.to_nat IMAGE_SIZE) 100)
      IMAGE_SIZE 50.
Proof.
  apply brightness_benchmark_final_image.
  - apply Forall_replicate. unfold is_u8. lia.
  - rewrite length_replicate. apply Z2Nat.id. exact IMAGE_SIZE_nonneg.
  - cbn [Bench.state]. rewrite length_replicate.
    apply Z2Nat.id. exact IMAGE_SIZE_nonneg.
Defined.

(** ** The streaming loop *)

Lemma fill_loop_spec (f : Z -> Z) (a : list Z) (n : nat) :
  (n <= length a)%nat ->
  for_range 0 (Z.of_nat n) (fun i a => <[Z.to_nat i := f i]> a) a
  = (f <$> seqZ 0 (Z.of_nat n)) ++ drop n a.
Proof.
  induction n as [|n IH]; intros Hn; [reflexivity|].
  rewrite for_range_S, IH by lia. rewrite Nat2Z.id.
  destruct (lookup_lt_is_Some_2 a n) as [x Hx]; [lia|].
  rewrite (drop_S _ _ _ Hx).
  rewrite insert_app_r_alt by (rewrite length_fmap, length_seqZ; lia).
  rewrite length_fmap, length_seqZ, Nat2Z.id, Nat.sub_diag.
  rewrite seqZ_S, fmap_app, <- app_assoc. reflexivity.
Qed.

Lemma stream_loop_as_vector_loop (fuel : nat) :
  forall (a : list Z) (k : Z),
    0 <= k ->
    stream_loop fuel a (8 * k)
    = (vector_loop 8 (fun g => _mm256_mul_ps g (_mm256_set1_ps f32_2_0))
         fuel a LARGE_SIZE (8 * k)).1.
Proof.
  unfold LARGE_SIZE.
  induction fuel as [|fuel IH]; intros a k Hk; [reflexivity|].
  cbn [stream_loop vector_loop]. unfold LARGE_SIZE.
  destruct (Z.ltb_spec (8 * k) 1024); destruct (Z.leb_spec (8 * k) (1024 - 8));
    try lia; [|reflexivity].
  replace (8 * k + 8) with (8 * (k + 1)) by lia.
  rewrite IH by lia. reflexivity.
Qed.

Lemma double_group (g : list Z) :
  Z.of_nat (length g) = 8 ->
  _mm256_mul_ps g (_mm256_set1_ps f32_2_0)
  = (fun x => F32.mul x f32_2_0) <$> g.
Proof.
  intros Hg. unfold _mm256_mul_ps, _mm256_set1_ps.
  now rewrite zip_with_replicate_r_eq by lia.
Qed.

Lemma doubles_of_indices :
  forallb (fun i => F32.mul (F32.of_Z i) f32_2_0 =? F32.of_Z (2 * i))
          (seqZ 0 LARGE_SIZE) = true.
Proof. vm_compute. reflexivity. Qed.

(** X20. The streaming loop doubles each of the 1024 floats exactly once; on
    the array [main] fills with 0, 1, ..., 1023 the result is 0, 2, ...,
    2046, each exact. *)
Theorem stream_double_spec (large_array : list Z) :
  Z.of_nat (length large_array) = LARGE_SIZE ->
  stream_double large_array = (fun x => F32.mul x f32_2_0) <$> large_array
  /\ stream_double (initialize_large_array large_array)
     = (fun i => F32.of_Z (2 * i)) <$> seqZ 0 LARGE_SIZE.
Proof.
  intros Hlen.
  assert (Hdouble : forall a, Z.of_nat (length a) = LARGE_SIZE ->
            stream_double a = (fun x => F32.mul x f32_2_0) <$> a).
  { intros a Ha. unfold stream_double.
    rewrite (stream_loop_as_vector_loop _ a 0) by lia.
    rewrite (vector_loop_spec 8 _ (fun _ => True) eq_refl) with (k := 128%nat);
      [| |lia|lia|apply Forall_true; auto|reflexivity|unfold LARGE_SIZE; lia].
    - cbn [fst]. change (Z.to_nat (8 * 0)) with 0%nat.
      rewrite take_0, drop_0. cbn [app].
      rewrite drop_ge, app_nil_r by (unfold LARGE_SIZE in Ha; lia).
      apply Forall2_eq_inv.
      rewrite <- (take_ge a (Z.to_nat (Z.of_nat 128 * 8))) at 2
        by (unfold LARGE_SIZE in Ha; lia).
      apply (map_groups_agree 8 _ _ (fun _ => True) eq_refl eq);
        [|unfold LARGE_SIZE in Ha; lia|apply Forall_true; auto].
      intros g Hg _. rewrite double_group by exact Hg.
      apply Forall_Forall2_diag, Forall_forall. auto.
    - intros g Hg _. rewrite double_group by exact Hg.
      now rewrite length_fmap. }
  split; [apply Hdouble; exact Hlen|].
  assert (Hinit : initialize_large_array large_array
                  = F32.of_Z <$> seqZ 0 LARGE_SIZE).
  { unfold initialize_large_array.
    rewrite <- (Z2Nat.id LARGE_SIZE) at 1 by discriminate.
    rewrite fill_loop_spec by (unfold LARGE_SIZE in *; lia).
    rewrite drop_ge, app_nil_r by (unfold LARGE_SIZE in *; lia).
    now rewrite Z2Nat.id by discriminate. }
  rewrite Hinit, Hdouble by (rewrite length_fmap, length_seqZ; reflexivity).
  rewrite <- list_fmap_compose. apply Forall_fmap_ext_1, Forall_forall.
  intros i Hi. pose proof doubles_of_indices as H.
  rewrite forallb_forall in H. specialize (H i (proj1 (list_elem_of_In _ _) Hi)).
  apply Z.eqb_eq. exact H.
Qed.

Lemma stream_double_spec_witness :
  stream_double (replicate 1024 f32_0_7)
    = (fun x => F32.mul x f32_2_0) <$> replicate 1024 f32_0_7
  /\ stream_double (initialize_large_array (replicate 1024 f32_0_7))
     = (fun i => F32.of_Z (2 * i)) <$> seqZ 0 LARGE_SIZE.
Proof. apply stream_double_spec. reflexivity. Defined.

(** ** The test image *)

Lemma write3_lookup (a : list Z) (i r g b j : Z) :
  0 <= i -> i + 2 < Z.of_nat (length a) -> 0 <= j ->
  <[Z.to_nat (i + 2) := b]>
    (<[Z.to_nat (i + 1) := g]> (<[Z.to_nat (i + 0) := r]> a)) !! Z.to_nat j
  = if j =? i then Some r
    else if j =? i + 1 then Some g
    else if j =? i + 2 then Some b
    else a !! Z.to_nat j.
Proof.
  intros Hi Hlen Hj. rewrite Z.add_0_r.
  destruct (Z.eqb_spec j i) as [->|Hn0].
  { rewrite !list_lookup_insert_ne by lia.
    apply list_lookup_insert_eq. lia. }
  destruct (Z.eqb_spec j (i + 1)) as [->|Hn1].
  { rewrite list_lookup_insert_ne by lia.
    apply list_lookup_insert_eq. rewrite length_insert. lia. }
  destruct (Z.eqb_spec j (i + 2)) as [->|Hn2].
  { apply list_lookup_insert_eq. rewrite !length_insert. lia. }
  rewrite !list_lookup_insert_ne by lia. reflexivity.
Qed.

Section test_image.
Variables width height : Z.
Hypothesis width_pos : 0 < width.
Hypothesis height_pos : 0 < height.

(** Pixel number [p] of [image] holds the gradient of its column and row. *)
Let pixel_done (image : list Z) (p : Z) : Prop :=
  image !! Z.to_nat (p * 3) = Some (Z.quot ((p mod width) * 255) width)
  /\ image !! Z.to_nat (p * 3 + 1) = Some (Z.quot ((p / width) * 255) height)
  /\ image !! Z.to_nat (p * 3 + 2) = Some 128.

Let row_body (y x : Z) (image : list Z) : list Z :=
  let idx := (y * width + x) * 3 in
  let image :=
    <[Z.to_nat (idx + 0) := static_cast_uint8_t (Z.quot (x * 255) width)]>
      image in
  let image :=
    <[Z.to_nat (idx + 1) := static_cast_uint8_t (Z.quot (y * 255) height)]>
      image in
  <[Z.to_nat (idx + 2) := static_cast_uint8_t 128]> image.

Lemma gradient_byte (x bound : Z) :
  0 <= x < bound ->
  static_cast_uint8_t (Z.quot (x * 255) bound) = Z.quot (x * 255) bound
  /\ is_u8 (Z.quot (x * 255) bound).
Proof.
  intros Hx. rewrite Z.quot_div_nonneg by lia.
  assert (0 <= x * 255 / bound < 255).
  { split; [apply Z.div_pos; lia|apply Z.div_lt_upper_bound; lia]. }
  unfold static_cast_uint8_t, is_u8. rewrite Z.mod_small by lia. lia.
Qed.

Lemma row_body_step (y x : Z) (image : list Z) :
  0 <= y < height -> 0 <= x < width ->
  (y * width + x) * 3 + 2 < Z.of_nat (length image) ->
  (forall p, 0 <= p < y * width + x -> pixel_done image p) ->
  length (row_body y x image) = length image
  /\ forall p, 0 <= p < y * width + (x + 1) ->
       pixel_done (row_body y x image) p.
Proof.
  intros Hy Hx Hlen Hdone. unfold row_body; cbv zeta.
  split; [now rewrite !length_insert|].
  intros p Hp. unfold pixel_done.
  assert (0 <= y * width) by nia.
  rewrite !write3_lookup by lia.
  destruct (Z.eq_dec p (y * width + x)) as [->|Hne].
  - rewrite Z.eqb_refl.
    replace (_ =? _) with false by (symmetry; apply Z.eqb_neq; lia).
    rewrite Z.eqb_refl.
    replace (_ =? _) with false by (symmetry; apply Z.eqb_neq; lia).
    replace ((y * width + x) * 3 + 2 =? (y * width + x) * 3 + 1) with false
      by (symmetry; apply Z.eqb_neq; lia).
    rewrite Z.eqb_refl.
    rewrite (Z.add_comm (y * width)), Z.mod_add, Z.div_add by lia.
    rewrite Z.mod_small, Z.div_small, Z.add_0_l by lia.
    rewrite (proj1 (gradient_byte x width Hx)).
    rewrite (proj1 (gradient_byte y height Hy)). auto.
  - destruct (Hdone p ltac:(lia)) as (Hr & Hg & Hb).
    repeat match goal with
    | |- context [?a =? ?b] =>
        replace (a =? b) with false by (symmetry; apply Z.eqb_neq; lia)
    end.
    auto.
Qed.
Lemma row_loop (y : Z) (n : nat) (image : list Z) :
  0 <= y < height -> Z.of_nat n <= width ->
  (y * width + width) * 3 <= Z.of_nat (length image) ->
  (forall p, 0 <= p < y * width -> pixel_done image p) ->
  length (for_range 0 (Z.of_nat n) (row_body y) image) = length image
  /\ forall p, 0 <= p < y * width + Z.of_nat n ->
       pixel_done (for_range 0 (Z.of_nat n) (row_body y) image) p.
Proof.
  intros Hy. induction n as [|n IH]; intros Hn Hlen Hdone.
  - split; [reflexivity|]. intros p Hp. apply Hdone. lia.
  - destruct IH as [IHlen IHdone]; [lia|assumption|assumption|].
    rewrite for_range_S.
    destruct (row_body_step y (Z.of_nat n)
                (for_range 0 (Z.of_nat n) (row_body y) image))
      as [Hl Hd]; [assumption|lia|rewrite IHlen; lia|exact IHdone|].
    split; [now rewrite Hl|].
    intros p Hp. apply Hd. lia.
Qed.

Lemma image_loop (m : nat) (image : list Z) :
  Z.of_nat m <= height ->
  Z.of_nat (length image) = width * height * 3 ->
  length (for_range 0 (Z.of_nat m)
            (fun y image => for_range 0 width (row_body y) image) image)
  = length image
  /\ forall p, 0 <= p < Z.of_nat m * width ->
       pixel_done
         (for_range 0 (Z.of_nat m)
            (fun y image => for_range 0 width (row_body y) image) image) p.
Proof.
  intros Hm Hlen. induction m as [|m IH].
  - split; [reflexivity|]. intros p Hp. lia.
  - destruct IH as [IHlen IHdone]; [lia|].
    rewrite for_range_S.
    destruct (row_loop (Z.of_nat m) (Z.to_nat width)
                (for_range 0 (Z.of_nat m)
                   (fun y image => for_range 0 width (row_body y) image)
                   image))
      as [Hl Hd]; [lia|lia|rewrite IHlen; nia|exact IHdone|].
    rewrite Z2Nat.id in Hl, Hd by lia.
    split; [now rewrite Hl|].
    intros p Hp. apply Hd. lia.
Qed.

Lemma initialize_test_image_done (image : list Z) :
  Z.of_nat (length image) = width * height * 3 ->
  length (initialize_test_image image width height 3) = length image
  /\ forall p, 0 <= p < height * width ->
       pixel_done (initialize_test_image image width height 3) p.
Proof.
  intros Hlen.
  destruct (image_loop (Z.to_nat height) image) as [Hl Hd]; [lia|assumption|].
  rewrite Z2Nat.id in Hl, Hd by lia.
  split; [exact Hl|exact Hd].
Qed.
End test_image.

(** X21. With three channels and a buffer of [width * height * 3] bytes (in
    the range where no [int] expression of the function overflows),
    [initialize_test_image] writes every byte: pixel (x, y) holds
    [x * 255 / width], [y * 255 / height] and 128, whatever the buffer held
    before, and every byte is at most 255 without the cast cutting
    anything. *)
Theorem initialize_test_image_gradient (image : list Z) (width height : Z) :
  0 < width -> 0 < height ->
  width * height * 3 < 2 ^ 31 ->
  width * 255 < 2 ^ 31 -> height * 255 < 2 ^ 31 ->
  Z.of_nat (length image) = width * height * 3 ->
  let result := initialize_test_image image width height 3 in
  length result = length image
  /\ Forall is_u8 result
  /\ forall x y, 0 <= x < width -> 0 <= y < height ->
       result !! Z.to_nat ((y * width + x) * 3) = Some (Z.quot (x * 255) width)
       /\ result !! Z.to_nat ((y * width + x) * 3 + 1)
          = Some (Z.quot (y * 255) height)
       /\ result !! Z.to_nat ((y * width + x) * 3 + 2) = Some 128.
Proof.
  intros Hw Hh _ _ _ Hlen result.
  destruct (initialize_test_image_done width height Hw Hh image Hlen)
    as [Hl Hd].
  fold result in Hl, Hd.
  assert (Hpix : forall x y, 0 <= x < width -> 0 <= y < height ->
       result !! Z.to_nat ((y * width + x) * 3) = Some (Z.quot (x * 255) width)
       /\ result !! Z.to_nat ((y * width + x) * 3 + 1)
          = Some (Z.quot (y * 255) height)
       /\ result !! Z.to_nat ((y * width + x) * 3 + 2) = Some 128).
  { intros x y Hx Hy.
    destruct (Hd (y * width + x)) as (Hr & Hg & Hb); [nia|].
    rewrite (Z.add_comm (y * width)), Z.mod_add, Z.mod_small in Hr by lia.
    rewrite (Z.add_comm (y * width)) in Hg.
    rewrite Z.div_add, Z.div_small, Z.add_0_l in Hg by lia.
    rewrite (Z.add_comm x) in Hr, Hg. auto. }
  split; [exact Hl|]. split; [|exact Hpix].
  apply Forall_lookup. intros i v Hi.
  pose proof (lookup_lt_Some _ _ _ Hi) as Hlt.
  pose proof (Z.div_mod (Z.of_nat i) 3 ltac:(lia)) as Hdm.
  pose proof (Z.mod_pos_bound (Z.of_nat i) 3 ltac:(lia)) as Hc.
  set (p := Z.of_nat i / 3) in *.
  assert (Hp : 0 <= p < height * width).
  { split; [apply Z.div_pos; lia|apply Z.div_lt_upper_bound; lia]. }
  pose proof (Z.div_mod p width ltac:(lia)) as Hxy.
  pose proof (Z.mod_pos_bound p width Hw) as Hxb.
  assert (Hyb : 0 <= p / width < height).
  { split; [apply Z.div_pos; lia|apply Z.div_lt_upper_bound; lia]. }
  destruct (Hpix (p mod width) (p / width) Hxb Hyb) as (Hr & Hg & Hb).
  replace (p / width * width + p mod width) with p in Hr, Hg, Hb by lia.
  assert (Hcase : Z.of_nat i mod 3 = 0 \/ Z.of_nat i mod 3 = 1
                  \/ Z.of_nat i mod 3 = 2) by lia.
  destruct Hcase as [Hc0|[Hc1|Hc2]].
  - replace (Z.to_nat (p * 3)) with i in Hr by lia.
    rewrite Hi in Hr. injection Hr as ->.
    apply (gradient_byte _ _ Hxb).
  - replace (Z.to_nat (p * 3 + 1)) with i in Hg by lia.
    rewrite Hi in Hg. injection Hg as ->.
    apply (gradient_byte _ _ Hyb).
  - replace (Z.to_nat (p * 3 + 2)) with i in Hb by lia.
    rewrite Hi in Hb. injection Hb as ->. unfold is_u8. lia.
Qed.

Lemma initialize_test_image_gradient_witness :
  let result := initialize_test_image (replicate 12 77) 2 2 3 in
  length result = length (replicate 12 77)
  /\ Forall is_u8 result
  /\ forall x y, 0 <= x < 2 -> 0 <= y < 2 ->
       result !! Z.to_nat ((y * 2 + x) * 3) = Some (Z.quot (x * 255) 2)
       /\ result !! Z.to_nat ((y * 2 + x) * 3 + 1) = Some (Z.quot (y * 255) 2)
       /\ result !! Z.to_nat ((y * 2 + x) * 3 + 2) = Some 128.
Proof.
  apply (initialize_test_image_gradient (replicate 12 77) 2 2);
    [lia|lia|reflexivity|reflexivity|reflexivity|reflexivity].
Defined.
